(** * Shared whiteboard: the CRDT manager and the reconnecting transport

    A shallow embedding of [utils/crdt.ts] (class [CRDTManager]), of the
    message handler of [components/Whiteboard.tsx] and of the reconnection
    logic of [services/websocket.ts], followed by the properties of the
    conflict-resolution rules.

    Conventions of the embedding.
    - A JavaScript [number] is an integer ([Z]): timestamps come from
      [Date.now()], counters are incremented by one, coordinates are taken
      as whole units.  [Math.abs] is [Z.abs].
    - A JavaScript string is a [string] of 8-bit characters; [a > b] on
      strings is the lexicographic order on character codes.
    - An optional field ([startX?: number], [deleted?: boolean]) is an
      [option]; [undefined] is [None].
    - A [Map<string, V>] is a finite map [gmap string V]: the model keeps
      what is stored under each key, not the insertion order of the keys.
    - A method that mutates [this] is a function from the state before to
      the state after, paired with the returned value when there is one. *)

From Stdlib Require Import ZArith String Ascii.
From stdpp Require Import gmap strings.

Open Scope string_scope.
Open Scope Z_scope.

(** ** types/whiteboard.ts *)

Inductive DrawingTool := pen | eraser | rectangle | circle | line.

Record Point := { x : Z; y : Z }.

Record DrawingElementData := {
  tool : DrawingTool;
  color : string;
  strokeWidth : Z;
  startX : option Z;
  startY : option Z;
  endX : option Z;
  endY : option Z;
  path : option (list Point);
  points : option (list Point)
}.

(** The fields [x] and [y] of the source are [md_x] and [md_y] here, the
    names [x] and [y] being those of [Point]. *)
Record MarkdownElementData := {
  content : string;
  md_x : Z;
  md_y : Z;
  width : Z;
  height : Z
}.

Inductive WhiteboardElementData :=
| DrawingData (d : DrawingElementData)
| MarkdownData (m : MarkdownElementData).

Inductive ElementType := drawing | markdown.

(** [type] and [data] are independent fields in the source: nothing ties a
    ['drawing'] element to a [DrawingElementData] payload. *)
Record WhiteboardElement := {
  id : string;
  type : ElementType;
  data : WhiteboardElementData;
  timestamp : Z;
  userId : string;
  deleted : option bool
}.

(** ** Reading a payload through the casts of the source

    [element.data as DrawingElementData] is unchecked: a field read on the
    other variant of the union yields [undefined]. *)

Definition data_tool (d : WhiteboardElementData) : option DrawingTool :=
  match d with DrawingData d => Some (tool d) | MarkdownData _ => None end.

Definition data_path (d : WhiteboardElementData) : option (list Point) :=
  match d with DrawingData d => path d | MarkdownData _ => None end.

Definition data_points (d : WhiteboardElementData) : option (list Point) :=
  match d with DrawingData d => points d | MarkdownData _ => None end.

Definition data_startX (d : WhiteboardElementData) : option Z :=
  match d with DrawingData d => startX d | MarkdownData _ => None end.

Definition data_startY (d : WhiteboardElementData) : option Z :=
  match d with DrawingData d => startY d | MarkdownData _ => None end.

Definition data_endX (d : WhiteboardElementData) : option Z :=
  match d with DrawingData d => endX d | MarkdownData _ => None end.

Definition data_endY (d : WhiteboardElementData) : option Z :=
  match d with DrawingData d => endY d | MarkdownData _ => None end.

Definition data_content (d : WhiteboardElementData) : option string :=
  match d with DrawingData _ => None | MarkdownData m => Some (content m) end.

(** ** JavaScript operators used by the manager *)

(** [a > b] on strings. *)
Definition str_gt (a b : string) : bool := String.ltb b a.

(** [v || 0] on an optional number: [undefined] and [0] both give [0]. *)
Definition or_zero (v : option Z) : Z := default 0 v.

(** [data.path || data.points || []]: an array, even empty, is truthy. *)
Definition path_or_points (d : WhiteboardElementData) : list Point :=
  match data_path d with
  | Some p => p
  | None => match data_points d with Some p => p | None => [] end
  end.

(** [p[0] || { x: 0, y: 0 }]. *)
Definition first_pos (p : list Point) : Point :=
  match p with q :: _ => q | [] => {| x := 0; y := 0 |} end.

(** [element.deleted] in a condition: [undefined] is falsy. *)
Definition is_deleted (e : WhiteboardElement) : bool :=
  match deleted e with Some true => true | _ => false end.

(** White space removed by [String.prototype.trim], among 8-bit characters:
    tab, line feed, vertical tab, form feed, carriage return, space. *)
Definition is_space (c : ascii) : bool :=
  let n := nat_of_ascii c in
  ((9 <=? n)%nat && (n <=? 13)%nat) || (n =? 32)%nat.

Fixpoint trim_start (s : string) : string :=
  match s with
  | EmptyString => EmptyString
  | String c r => if is_space c then trim_start r else s
  end.

Definition trim (s : string) : string :=
  String.rev (trim_start (String.rev (trim_start s))).

Definition is_pen_or_eraser (t : option DrawingTool) : bool :=
  match t with Some pen | Some eraser => true | _ => false end.

(** ** utils/crdt.ts: class CRDTManager *)

(** The private field [userId] of the class is [mgr_userId], the name
    [userId] being that of the element's field. *)
Record CRDTManager := {
  elements : gmap string WhiteboardElement;
  mgr_userId : string;
  vector : gmap string Z
}.

(** [constructor(userId)] *)
Definition new_CRDTManager (u : string) : CRDTManager :=
  {| elements := ∅; mgr_userId := u; vector := {[ u := 0 ]} |}.

Definition isElementComplete (element : WhiteboardElement) : bool :=
  match type element with
  | drawing =>
      let d := data element in
      match data_tool d with
      | Some pen | Some eraser =>
          (2 <? Z.of_nat (length (path_or_points d)))
      | Some rectangle | Some circle =>
          bool_decide (data_startX d ≠ None) && bool_decide (data_startY d ≠ None) &&
          bool_decide (data_endX d ≠ None) && bool_decide (data_endY d ≠ None) &&
          (5 <? Z.abs (or_zero (data_endX d) - or_zero (data_startX d))) &&
          (5 <? Z.abs (or_zero (data_endY d) - or_zero (data_startY d)))
      | Some line =>
          bool_decide (data_startX d ≠ None) && bool_decide (data_startY d ≠ None) &&
          bool_decide (data_endX d ≠ None) && bool_decide (data_endY d ≠ None)
      | None => true
      end
  | markdown =>
      match data_content (data element) with
      | Some c => negb (String.eqb (trim c) "")
      | None => false
      end
  end.

Definition areConcurrent (element1 element2 : WhiteboardElement) : bool :=
  let timeDiff := Z.abs (timestamp element1 - timestamp element2) in
  timeDiff <=? 500.

(** The body of [resolveConcurrentConflict] is three blocks in sequence,
    the first two returning early: [None] below is "fall through". *)

(** Lines 70-93: both elements are drawings and the new one is a stroke. *)
Definition resolveStrokes (newElement existingElement : WhiteboardElement) : option bool :=
  match type newElement, type existingElement with
  | drawing, drawing =>
      let newData := data newElement in
      let existingData := data existingElement in
      if is_pen_or_eraser (data_tool newData) then
        if String.eqb (userId newElement) (userId existingElement) then
          Some (timestamp existingElement <? timestamp newElement)
        else
          let newPath := path_or_points newData in
          let existingPath := path_or_points existingData in
          let newPos := first_pos newPath in
          let existingPos := first_pos existingPath in
          if (Z.abs (x newPos - x existingPos) <? 10) &&
             (Z.abs (y newPos - y existingPos) <? 10)
          then Some (timestamp existingElement <? timestamp newElement)
          else Some true
      else None
  | _, _ => None
  end.

(** Lines 96-106: the new element is a drawing that is not a stroke. *)
Definition resolveShapes (newElement existingElement : WhiteboardElement) : option bool :=
  match type newElement with
  | drawing =>
      if negb (is_pen_or_eraser (data_tool (data newElement))) then
        let newComplete := isElementComplete newElement in
        let existingComplete := isElementComplete existingElement in
        if newComplete && negb existingComplete then Some true
        else if negb newComplete && existingComplete then Some false
        else None
      else None
  | markdown => None
  end.

Definition resolveConcurrentConflict (newElement existingElement : WhiteboardElement) : bool :=
  match resolveStrokes newElement existingElement with
  | Some r => r
  | None =>
      match resolveShapes newElement existingElement with
      | Some r => r
      | None => str_gt (userId newElement) (userId existingElement)
      end
  end.

Definition shouldApplyOperation (newElement existingElement : WhiteboardElement) : bool :=
  let timeDiff := Z.abs (timestamp newElement - timestamp existingElement) in
  if 1000 <? timeDiff then
    timestamp existingElement <? timestamp newElement
  else if areConcurrent newElement existingElement then
    resolveConcurrentConflict newElement existingElement
  else if timestamp existingElement <? timestamp newElement then true
  else if timestamp newElement =? timestamp existingElement then
    str_gt (userId newElement) (userId existingElement)
  else false.

Definition updateVectorClock (u : string) (m : CRDTManager) : CRDTManager :=
  let currentValue := or_zero (vector m !! u) in
  {| elements := elements m;
     mgr_userId := mgr_userId m;
     vector := <[ u := currentValue + 1 ]> (vector m) |}.

Definition set_elements (els : gmap string WhiteboardElement) (m : CRDTManager) : CRDTManager :=
  {| elements := els; mgr_userId := mgr_userId m; vector := vector m |}.

Definition applyOperation (element : WhiteboardElement) (m : CRDTManager) : CRDTManager * bool :=
  let existingElement := elements m !! id element in
  if is_deleted element then
    match existingElement with
    | None =>
        (updateVectorClock (userId element) (set_elements (delete (id element) (elements m)) m), true)
    | Some ex =>
        if timestamp ex <? timestamp element then
          (updateVectorClock (userId element) (set_elements (delete (id element) (elements m)) m), true)
        else (m, false)
    end
  else
    match existingElement with
    | None =>
        (updateVectorClock (userId element) (set_elements (<[ id element := element ]> (elements m)) m), true)
    | Some ex =>
        if shouldApplyOperation element ex then
          (updateVectorClock (userId element) (set_elements (<[ id element := element ]> (elements m)) m), true)
        else (m, false)
    end.

Definition deleteElement (elementId : string) (m : CRDTManager) : CRDTManager :=
  set_elements (delete elementId (elements m)) m.

Definition getState (m : CRDTManager) : gmap string WhiteboardElement := elements m.

(** [Array.from(this.elements.values()).filter(el => !el.deleted)]; the
    values are enumerated in the order of the finite map. *)
Definition getAllElements (m : CRDTManager) : list WhiteboardElement :=
  filter (λ el, is_deleted el = false) (map_to_list (elements m)).*2.

Definition merge (remoteElements : list WhiteboardElement) (m : CRDTManager) : CRDTManager :=
  fold_left (λ acc element, (applyOperation element acc).1) remoteElements m.

Definition clear (m : CRDTManager) : CRDTManager :=
  {| elements := ∅; mgr_userId := mgr_userId m; vector := {[ mgr_userId m := 0 ]} |}.

Definition getVectorClock (m : CRDTManager) : gmap string Z := vector m.

Definition setVectorClock (v : gmap string Z) (m : CRDTManager) : CRDTManager :=
  {| elements := elements m; mgr_userId := mgr_userId m; vector := v |}.

(** ** components/Whiteboard.tsx: the [onMessage] handler

    The component owns a manager ([crdtManager.current]) and the React state
    [elements] that the canvas renders, [view] here.  The handler is
    installed right after the manager is created, so [crdtManager.current]
    is never null when it runs. *)

Record Whiteboard := {
  crdtManager : CRDTManager;
  view : gmap string WhiteboardElement
}.

(** The messages the handler tells apart.  [senderId] and [elementId] are
    optional fields of the envelope; the payload of ['sync'] is the list
    [Object.entries(message.data.state)]. *)
Inductive WebSocketMessage :=
| MsgSync (state : list (string * WhiteboardElement))
| MsgOperation (senderId : option string) (operation : WhiteboardElement)
| MsgBatchOperations (senderId : option string) (operations : list WhiteboardElement)
| MsgDelete (elementId : option string)
| MsgOther.

(** [map.delete(key)] where [key] may be [undefined]: no string key is
    [undefined], nothing is removed then. *)
Definition delete_opt {V} (k : option string) (m : gmap string V) : gmap string V :=
  match k with Some k => delete k m | None => m end.

Definition onMessage (user : string) (message : WebSocketMessage) (w : Whiteboard) : Whiteboard :=
  match message with
  | MsgSync state =>
      let fresh := new_CRDTManager user in
      let r :=
        fold_left
          (λ (acc : CRDTManager * gmap string WhiteboardElement) (entry : string * WhiteboardElement),
             ((applyOperation entry.2 acc.1).1, <[ entry.1 := entry.2 ]> acc.2))
          state (fresh, ∅) in
      {| crdtManager := r.1; view := r.2 |}
  | MsgOperation senderId operation =>
      if bool_decide (senderId ≠ Some user) then
        let m := (applyOperation operation (crdtManager w)).1 in
        {| crdtManager := m; view := getState m |}
      else w
  | MsgBatchOperations senderId operations =>
      if bool_decide (senderId ≠ Some user) then
        let m := merge operations (crdtManager w) in
        {| crdtManager := m; view := getState m |}
      else w
  | MsgDelete elementId =>
      {| crdtManager :=
           match elementId with
           | Some i => deleteElement i (crdtManager w)
           | None => crdtManager w
           end;
         view := delete_opt elementId (view w) |}
  | MsgOther => w
  end.

(** ** Sequences of calls on a manager *)

Inductive Call :=
| CallApplyOperation (element : WhiteboardElement)
| CallMerge (remoteElements : list WhiteboardElement)
| CallDeleteElement (elementId : string)
| CallClear.

Definition call (c : Call) (m : CRDTManager) : CRDTManager :=
  match c with
  | CallApplyOperation element => (applyOperation element m).1
  | CallMerge remoteElements => merge remoteElements m
  | CallDeleteElement elementId => deleteElement elementId m
  | CallClear => clear m
  end.

Definition calls (cs : list Call) (m : CRDTManager) : CRDTManager :=
  fold_left (λ acc c, call c acc) cs m.

(** ** services/websocket.ts: reconnection

    The fields that the reconnection logic reads or writes.  The timers and
    the sockets belong to the browser: a method returns, next to the new
    state, the timers it schedules and the sockets it opens. *)

Record WebSocketService := {
  clientId : string;
  roomId : string;
  reconnectAttempts : Z;
  currentUrl : string
}.

(** The two fields are initialised once and never assigned again. *)
Definition maxReconnectAttempts : Z := 5.
Definition reconnectDelay : Z := 1000.

Definition new_WebSocketService (client room : string) : WebSocketService :=
  {| clientId := client; roomId := room; reconnectAttempts := 0; currentUrl := "" |}.

Inductive Effect :=
| OpenSocket (url room : string)
| SetTimeout (delay : Z) (url room : string).

Definition set_reconnectAttempts (n : Z) (s : WebSocketService) : WebSocketService :=
  {| clientId := clientId s; roomId := roomId s;
     reconnectAttempts := n; currentUrl := currentUrl s |}.

(** [connectToRoom] closes the previous socket and opens a new one; it
    assigns none of the modelled fields. *)
Definition connectToRoom (url room : string) (s : WebSocketService)
  : WebSocketService * list Effect :=
  (s, [OpenSocket url room]).

Definition connect (url : string) (s : WebSocketService) : WebSocketService * list Effect :=
  let s' := {| clientId := clientId s; roomId := roomId s;
               reconnectAttempts := reconnectAttempts s; currentUrl := url |} in
  connectToRoom url (roomId s') s'.

Definition switchRoom (newRoomId : string) (s : WebSocketService)
  : WebSocketService * list Effect :=
  let s' := {| clientId := clientId s; roomId := newRoomId;
               reconnectAttempts := 0; currentUrl := currentUrl s |} in
  connectToRoom (currentUrl s') newRoomId s'.

Definition attemptReconnect (url room : string) (s : WebSocketService)
  : WebSocketService * list Effect :=
  if (reconnectAttempts s <? maxReconnectAttempts) && String.eqb room (roomId s) then
    let s' := set_reconnectAttempts (reconnectAttempts s + 1) s in
    (s', [SetTimeout (reconnectDelay * reconnectAttempts s') url room])
  else (s, []).

(** The callback given to [setTimeout] in [attemptReconnect]. *)
Definition reconnectTimer (url room : string) (s : WebSocketService)
  : WebSocketService * list Effect :=
  if String.eqb room (roomId s) then connectToRoom url room s else (s, []).

Definition onopen (s : WebSocketService) : WebSocketService * list Effect :=
  (set_reconnectAttempts 0 s, []).

Definition onclose (url room : string) (s : WebSocketService)
  : WebSocketService * list Effect :=
  attemptReconnect url room s.

(** What can happen to a service: a call of a public method, a socket
    callback, or the reconnect timer firing.  [EvOther] stands for the
    methods and callbacks that touch none of the modelled fields
    ([disconnect], [onerror], [onmessage], [sendOperation], ...). *)
Inductive Event :=
| EvConnect (url : string)
| EvSwitchRoom (newRoomId : string)
| EvOpen
| EvClose (url room : string)
| EvTimer (url room : string)
| EvOther.

Definition handle (ev : Event) (s : WebSocketService) : WebSocketService * list Effect :=
  match ev with
  | EvConnect url => connect url s
  | EvSwitchRoom newRoomId => switchRoom newRoomId s
  | EvOpen => onopen s
  | EvClose url room => onclose url room s
  | EvTimer url room => reconnectTimer url room s
  | EvOther => (s, [])
  end.

Fixpoint run (evs : list Event) (s : WebSocketService) : WebSocketService * list Effect :=
  match evs with
  | [] => (s, [])
  | ev :: evs' =>
      let r := handle ev s in
      let r' := run evs' r.1 in
      (r'.1, (r.2 ++ r'.2)%list)
  end.

Definition resets_counter (ev : Event) : bool :=
  match ev with EvOpen | EvSwitchRoom _ => true | _ => false end.

Definition timeout_delays (es : list Effect) : list Z :=
  omap (λ e, match e with SetTimeout d _ _ => Some d | OpenSocket _ _ => None end) es.

(** ** The decision and the effect of [applyOperation], read off its body

    [applyOperation] tests [existingElement] and the timestamps, then either
    mutates and returns [true] or returns [false].  [decision] is the
    condition under which it returns [true], [store_effect] the mutation of
    the map it performs then; [applyOperation_eq] below relates them to the
    method. *)

Definition decision (incoming : WhiteboardElement) (existing : option WhiteboardElement) : bool :=
  match existing with
  | None => true
  | Some ex =>
      if is_deleted incoming then timestamp ex <? timestamp incoming
      else shouldApplyOperation incoming ex
  end.

Definition store_effect (incoming : WhiteboardElement)
    (els : gmap string WhiteboardElement) : gmap string WhiteboardElement :=
  if is_deleted incoming then delete (id incoming) els
  else <[ id incoming := incoming ]> els.

(** ** Sample elements *)

Definition sample_stroke (i u : string) (t : Z) (p : list Point) : WhiteboardElement :=
  {| id := i; type := drawing;
     data := DrawingData {| tool := pen; color := "#ffffff"; strokeWidth := 2;
                            startX := None; startY := None; endX := None; endY := None;
                            path := Some p; points := None |};
     timestamp := t; userId := u; deleted := None |}.

Definition sample_rectangle (i u : string) (t : Z) (sx sy ex ey : option Z) : WhiteboardElement :=
  {| id := i; type := drawing;
     data := DrawingData {| tool := rectangle; color := "#ffffff"; strokeWidth := 2;
                            startX := sx; startY := sy; endX := ex; endY := ey;
                            path := Some []; points := None |};
     timestamp := t; userId := u; deleted := None |}.

Definition sample_markdown (i u : string) (t : Z) (c : string) : WhiteboardElement :=
  {| id := i; type := markdown;
     data := MarkdownData {| content := c; md_x := 40; md_y := 60; width := 300; height := 200 |};
     timestamp := t; userId := u; deleted := None |}.

Definition sample_delete (i u : string) (t : Z) : WhiteboardElement :=
  {| id := i; type := markdown;
     data := MarkdownData {| content := ""; md_x := 0; md_y := 0; width := 300; height := 200 |};
     timestamp := t; userId := u; deleted := Some true |}.

(** A manager of user [u] holding exactly [e]. *)
Definition holding (u : string) (e : WhiteboardElement) : CRDTManager :=
  {| elements := {[ id e := e ]}; mgr_userId := u; vector := {[ u := 0 ]} |}.

(** ** The invariant of the map: no stored element is marked deleted *)

Definition no_deleted_stored (m : CRDTManager) : Prop :=
  ∀ i el, elements m !! i = Some el → deleted el ≠ Some true.

(** ** Reading the counters and comparing two candidates *)

(** The counter of a user: [this.vector.get(userId) || 0]. *)
Definition counter (u : string) (m : CRDTManager) : Z := or_zero (vector m !! u).

(** The later of two elements by timestamp, the first one on a tie. *)
Definition newer (a b : WhiteboardElement) : WhiteboardElement :=
  if timestamp a <? timestamp b then b else a.

(** The operations of a batch authored by [u]. *)
Definition authored_by (u : string) (l : list WhiteboardElement) : list WhiteboardElement :=
  filter (λ e, userId e = u) l.

(** ** Every element is stored under its own id *)

Definition keyed_by_id (m : CRDTManager) : Prop :=
  ∀ i el, elements m !! i = Some el → id el = i.

(** ** Strings made of white space only *)


(** ** services/websocket.ts: sending and the drawing session

    The remaining fields of the service, next to those of
    [WebSocketService] ([core]).  [socketOpen] is the condition
    [this.socket && this.socket.readyState === WebSocket.OPEN];
    [drawingEndTimeout] is the handle returned by [setTimeout], if any. *)

Record Transport := {
  core : WebSocketService;
  socketOpen : bool;
  isDrawing : bool;
  drawingEndTimeout : option nat;
  pendingOperations : list WhiteboardElement;
  lastSyncTime : Z
}.

(** The timeouts of the browser that [scheduleDrawingEnd] set and that
    neither fired nor were cleared, and the next handle [setTimeout] gives. *)
Record Browser := {
  transport : Transport;
  timeouts : list nat;
  nextHandle : nat
}.

(** The messages the service sends. *)
Inductive Frame :=
| FrameOperation (element : WhiteboardElement)
| FrameBatchOperations (operations : list WhiteboardElement) (client : string) (sentAt : Z)
| FrameSyncRequest (client : option string)
| FramePing
| FrameCursor (cx cy : Z) (client : string).

(** [constructor(clientId, roomId)]: no socket, no timeout, nothing pending. *)
Definition new_Transport (client room : string) : Transport :=
  {| core := new_WebSocketService client room; socketOpen := false; isDrawing := false;
     drawingEndTimeout := None; pendingOperations := []; lastSyncTime := 0 |}.

Definition new_Browser (client room : string) : Browser :=
  {| transport := new_Transport client room; timeouts := []; nextHandle := 1 |}.

Definition isConnected (t : Transport) : bool := socketOpen t.

Definition sendMessage (message : Frame) (t : Transport) : list Frame :=
  if socketOpen t then [message] else [].

(** The value of the field [type] of an element, as a string. *)
Definition type_name (t : ElementType) : string :=
  match t with drawing => "drawing" | markdown => "markdown" end.

Definition shouldSendImmediately (element : WhiteboardElement) : bool :=
  String.eqb (type_name (type element)) "pen".

Definition set_drawing (d : bool) (ops : list WhiteboardElement) (t : Transport) : Transport :=
  {| core := core t; socketOpen := socketOpen t; isDrawing := d;
     drawingEndTimeout := drawingEndTimeout t; pendingOperations := ops;
     lastSyncTime := lastSyncTime t |}.

Definition set_drawingEndTimeout (h : option nat) (t : Transport) : Transport :=
  {| core := core t; socketOpen := socketOpen t; isDrawing := isDrawing t;
     drawingEndTimeout := h; pendingOperations := pendingOperations t;
     lastSyncTime := lastSyncTime t |}.

Definition markDrawingStart (t : Transport) : Transport :=
  if negb (isDrawing t) then set_drawing true (pendingOperations t) t else t.

(** [clearTimeout(h)] *)
Definition clearTimeout (h : nat) (b : Browser) : Browser :=
  {| transport := transport b;
     timeouts := filter (λ h', h' ≠ h) (timeouts b);
     nextHandle := nextHandle b |}.

Definition scheduleDrawingEnd (b : Browser) : Browser :=
  let b1 := match drawingEndTimeout (transport b) with
            | Some h => clearTimeout h b
            | None => b
            end in
  let h := nextHandle b1 in
  {| transport := set_drawingEndTimeout (Some h) (transport b1);
     timeouts := h :: timeouts b1;
     nextHandle := S h |}.

Definition sendOperation (element : WhiteboardElement) (b : Browser) : Browser * list Frame :=
  let t1 := markDrawingStart (transport b) in
  let sent := if shouldSendImmediately element
              then sendMessage (FrameOperation element) t1 else [] in
  let t2 := set_drawing (isDrawing t1) (pendingOperations t1 ++ [element])%list t1 in
  (scheduleDrawingEnd {| transport := t2; timeouts := timeouts b; nextHandle := nextHandle b |},
   sent).

(** [handleDrawingEnd] reads the clock twice: [sentAt] for the batch,
    [doneAt] for [lastSyncTime]. *)
Definition handleDrawingEnd (sentAt doneAt : Z) (t : Transport) : Transport * list Frame :=
  if isDrawing t then
    let operationsToSync :=
      filter (λ op, shouldSendImmediately op = false) (pendingOperations t) in
    let sent :=
      if (0 <? length operationsToSync)%nat
      then sendMessage (FrameBatchOperations operationsToSync (clientId (core t)) sentAt) t
      else [] in
    ({| core := core t; socketOpen := socketOpen t; isDrawing := false;
        drawingEndTimeout := drawingEndTimeout t; pendingOperations := [];
        lastSyncTime := doneAt |}, sent)
  else (t, []).

(** The timeout [h] fires: the callback of [scheduleDrawingEnd] runs if the
    timeout is still pending. *)
Definition drawingEndTimer (h : nat) (sentAt doneAt : Z) (b : Browser) : Browser * list Frame :=
  if bool_decide (h ∈ timeouts b) then
    let r := handleDrawingEnd sentAt doneAt (transport b) in
    ({| transport := r.1; timeouts := filter (λ h', h' ≠ h) (timeouts b);
        nextHandle := nextHandle b |}, r.2)
  else (b, []).

Definition forceDrawingEnd (sentAt doneAt : Z) (b : Browser) : Browser * list Frame :=
  if isDrawing (transport b) then
    let r := handleDrawingEnd sentAt doneAt (transport b) in
    ({| transport := r.1; timeouts := timeouts b; nextHandle := nextHandle b |}, r.2)
  else (b, []).

Definition clearDrawingState (b : Browser) : Browser :=
  let t := set_drawing false [] (transport b) in
  match drawingEndTimeout t with
  | Some h =>
      {| transport := set_drawingEndTimeout None t;
         timeouts := filter (λ h', h' ≠ h) (timeouts b);
         nextHandle := nextHandle b |}
  | None => {| transport := t; timeouts := timeouts b; nextHandle := nextHandle b |}
  end.

Definition getDrawingState (t : Transport) : bool := isDrawing t.

Definition requestSync (t : Transport) : list Frame :=
  if negb (isDrawing t)
  then sendMessage (FrameSyncRequest (Some (clientId (core t)))) t else [].

Definition sendCursor (cx cy : Z) (t : Transport) : list Frame :=
  sendMessage (FrameCursor cx cy (clientId (core t))) t.

(** The callbacks of the two [setInterval] of the service. *)
Definition heartbeatTick (t : Transport) : list Frame :=
  if isConnected t then sendMessage FramePing t else [].

Definition syncRequestTick (t : Transport) : list Frame :=
  if isConnected t && negb (isDrawing t)
  then sendMessage (FrameSyncRequest None) t else [].

(** [disconnect]: the drawing state is cleared, the socket closed and
    forgotten. *)
Definition disconnect (b : Browser) : Browser :=
  let b1 := clearDrawingState b in
  let t := transport b1 in
  {| transport := {| core := core t; socketOpen := false; isDrawing := isDrawing t;
                     drawingEndTimeout := drawingEndTimeout t;
                     pendingOperations := pendingOperations t;
                     lastSyncTime := lastSyncTime t |};
     timeouts := timeouts b1; nextHandle := nextHandle b1 |}.

(** The socket of the service opens ([onopen]).  A socket closes
    ([onclose], which clears the drawing state and calls
    [attemptReconnect]); [current] tells whether it is [this.socket] or a
    socket the service has replaced.  The reconnect timeouts that [onclose]
    schedules are those of [handle]; they are not listed again here. *)
Definition socketOpened (b : Browser) : Browser :=
  let t := transport b in
  {| transport := {| core := (onopen (core t)).1; socketOpen := true; isDrawing := isDrawing t;
                     drawingEndTimeout := drawingEndTimeout t;
                     pendingOperations := pendingOperations t;
                     lastSyncTime := lastSyncTime t |};
     timeouts := timeouts b; nextHandle := nextHandle b |}.

Definition socketClosed (current : bool) (url room : string) (b : Browser) : Browser :=
  let b1 := clearDrawingState b in
  let t := transport b1 in
  {| transport := {| core := (onclose url room (core t)).1;
                     socketOpen := if current then false else socketOpen t;
                     isDrawing := isDrawing t;
                     drawingEndTimeout := drawingEndTimeout t;
                     pendingOperations := pendingOperations t;
                     lastSyncTime := lastSyncTime t |};
     timeouts := timeouts b1; nextHandle := nextHandle b1 |}.

(** What can happen to the drawing session. *)
Inductive SessionEvent :=
| SeSendOperation (element : WhiteboardElement)
| SeDrawingEndTimer (h : nat) (sentAt doneAt : Z)
| SeForceDrawingEnd (sentAt doneAt : Z)
| SeDisconnect
| SeSocketOpened
| SeSocketClosed (current : bool) (url room : string).

Definition session_step (ev : SessionEvent) (b : Browser) : Browser * list Frame :=
  match ev with
  | SeSendOperation element => sendOperation element b
  | SeDrawingEndTimer h sentAt doneAt => drawingEndTimer h sentAt doneAt b
  | SeForceDrawingEnd sentAt doneAt => forceDrawingEnd sentAt doneAt b
  | SeDisconnect => (disconnect b, [])
  | SeSocketOpened => (socketOpened b, sendMessage (FrameSyncRequest None) (transport (socketOpened b)))
  | SeSocketClosed current url room => (socketClosed current url room b, [])
  end.

Fixpoint session_run (evs : list SessionEvent) (b : Browser) : Browser * list Frame :=
  match evs with
  | [] => (b, [])
  | ev :: evs' =>
      let r := session_step ev b in
      let r' := session_run evs' r.1 in
      (r'.1, (r.2 ++ r'.2)%list)
  end.

(** [sendOperation] called on each element of a list in turn. *)
Definition sendOperations (ops : list WhiteboardElement) (b : Browser) : Browser * list Frame :=
  session_run (SeSendOperation <$> ops) b.

(** A drawing-end timeout or a forced end, at any times. *)
Definition ends_drawing (ev : SessionEvent) : bool :=
  match ev with
  | SeDrawingEndTimer _ _ _ | SeForceDrawingEnd _ _ => true
  | _ => false
  end.

(** At most one drawing-end timeout is pending, it is the one the service
    remembers, one is pending while a drawing session is active, and
    operations are pending only during a drawing session. *)
Definition session_ok (b : Browser) : Prop :=
  (timeouts b = [] ∨ ∃ h, timeouts b = [h] ∧ drawingEndTimeout (transport b) = Some h) ∧
  (isDrawing (transport b) = true → timeouts b ≠ []) ∧
  (isDrawing (transport b) = false → pendingOperations (transport b) = []).

(** * Properties *)

(** ** [applyOperation] in terms of [decision] and [store_effect] *)

Lemma applyOperation_eq (e : WhiteboardElement) (m : CRDTManager) :
  applyOperation e m =
  if decision e (elements m !! id e)
  then (updateVectorClock (userId e) (set_elements (store_effect e (elements m)) m), true)
  else (m, false).
Proof.
  unfold applyOperation, decision, store_effect.
  destruct (is_deleted e), (elements m !! id e) as [ex|]; try reflexivity.
Qed.

Lemma applyOperation_result (e : WhiteboardElement) (m : CRDTManager) :
  (applyOperation e m).2 = decision e (elements m !! id e).
Proof. rewrite applyOperation_eq. by destruct (decision _ _). Qed.

Lemma applyOperation_rejected (e : WhiteboardElement) (m : CRDTManager) :
  (applyOperation e m).2 = false → (applyOperation e m).1 = m.
Proof. rewrite applyOperation_eq. by destruct (decision _ _). Qed.

Lemma applyOperation_accepted (e : WhiteboardElement) (m : CRDTManager) :
  (applyOperation e m).2 = true →
  (applyOperation e m).1 =
    updateVectorClock (userId e) (set_elements (store_effect e (elements m)) m).
Proof. rewrite applyOperation_eq. by destruct (decision _ _). Qed.

Lemma is_deleted_spec (e : WhiteboardElement) :
  is_deleted e = true ↔ deleted e = Some true.
Proof.
  unfold is_deleted. destruct (deleted e) as [[]|]; split; congruence.
Qed.

Lemma elements_updateVectorClock (u : string) (m : CRDTManager) :
  elements (updateVectorClock u m) = elements m.
Proof. reflexivity. Qed.

(** ** Deletions *)

(** C1. For an incoming element with [deleted = true], [applyOperation]
    returns [true] exactly when nothing is stored under its id or its
    timestamp is greater than the stored one; when it returns [true] the id
    is removed from the map, when it returns [false] the manager is
    unchanged.  In particular a delete newer than the stored element removes
    it, and an older delete is rejected and the element stays. *)
Theorem applyOperation_delete_rule (e : WhiteboardElement) (m : CRDTManager) :
  deleted e = Some true →
  let r := applyOperation e m in
  (r.2 = true ↔
     elements m !! id e = None ∨
     ∃ ex, elements m !! id e = Some ex ∧ timestamp e > timestamp ex) ∧
  (r.2 = true →
     elements r.1 = delete (id e) (elements m) ∧ elements r.1 !! id e = None) ∧
  (r.2 = false → r.1 = m) ∧
  (∀ ex, elements m !! id e = Some ex → timestamp e > timestamp ex →
     r.2 = true ∧ elements r.1 !! id e = None) ∧
  (∀ ex, elements m !! id e = Some ex → timestamp e < timestamp ex →
     r.2 = false ∧ elements r.1 !! id e = Some ex).
Proof.
  intros Hdel%is_deleted_spec r.
  assert (Hacc : r.2 = true ↔
     elements m !! id e = None ∨
     ∃ ex, elements m !! id e = Some ex ∧ timestamp e > timestamp ex).
  { subst r. rewrite applyOperation_result. unfold decision. rewrite Hdel.
    destruct (elements m !! id e) as [ex|] eqn:Hex.
    - rewrite Z.ltb_lt. split.
      + intros Hlt. right. exists ex. split; [reflexivity | lia].
      + intros [Hnone | (ex' & Heq & Hgt)]; [discriminate | ].
        injection Heq as <-. lia.
    - split; [by left | reflexivity]. }
  assert (Hrem : r.2 = true →
     elements r.1 = delete (id e) (elements m) ∧ elements r.1 !! id e = None).
  { intros Ht. subst r. rewrite (applyOperation_accepted _ _ Ht).
    rewrite elements_updateVectorClock. unfold store_effect. rewrite Hdel. simpl.
    split; [reflexivity | apply lookup_delete_eq]. }
  assert (Hrej : r.2 = false → r.1 = m) by apply applyOperation_rejected.
  split; [exact Hacc | ]. split; [exact Hrem | ]. split; [exact Hrej | ]. split.
  - intros ex Hex Hgt.
    assert (Ht : r.2 = true) by (apply Hacc; right; eauto).
    split; [exact Ht | by apply Hrem].
  - intros ex Hex Hlt.
    assert (Hf : r.2 = false).
    { apply not_true_is_false. intros Ht%Hacc.
      destruct Ht as [Hnone | (ex' & Heq & Hgt)]; [congruence | ].
      rewrite Hex in Heq. injection Heq as <-. lia. }
    split; [exact Hf | ]. by rewrite (Hrej Hf).
Qed.

Lemma applyOperation_delete_rule_witness :
  let e := sample_delete "md-1" "bob" 2000 in
  let m := holding "alice" (sample_markdown "md-1" "alice" 1000 "note") in
  (applyOperation e m).2 = true ∧ elements (applyOperation e m).1 !! "md-1" = None.
Proof.
  intros e m.
  destruct (applyOperation_delete_rule e m eq_refl) as (_ & _ & _ & Hnewer & _).
  apply (Hnewer (sample_markdown "md-1" "alice" 1000 "note")).
  - reflexivity.
  - reflexivity.
Defined.

(** ** The decision reads one entry of the map *)

(** C8. The value returned by [applyOperation e] is the same in two
    managers whose maps agree on the entry under [id e], whatever their
    counters, their owners and their other entries are. *)
Theorem applyOperation_decision_local (e : WhiteboardElement) (m1 m2 : CRDTManager) :
  elements m1 !! id e = elements m2 !! id e →
  (applyOperation e m1).2 = (applyOperation e m2).2.
Proof.
  intros Hagree. rewrite !applyOperation_result. by rewrite Hagree.
Qed.

Lemma applyOperation_decision_local_witness :
  let e := sample_markdown "md-1" "bob" 1000 "new" in
  let old := sample_markdown "md-1" "alice" 1000 "old" in
  let m1 := holding "alice" old in
  let m2 := {| elements := <[ "md-2" := sample_markdown "md-2" "carol" 5 "x" ]> {[ "md-1" := old ]};
               mgr_userId := "carol";
               vector := {[ "carol" := 7; "bob" := 3 ]} |} in
  (applyOperation e m1).2 = (applyOperation e m2).2.
Proof.
  intros e old m1 m2.
  apply (applyOperation_decision_local e m1 m2).
  vm_compute. reflexivity.
Defined.

(** ** Explicit delete-by-id *)

(** C7. Handling a ['delete'] message carrying an element id removes that
    id from the manager's map whatever is stored and whatever its timestamp:
    the new manager is [deleteElement] of the old one, its map is the old
    map without the id, the counters are those of before, and nothing is
    stored under the id afterwards (in the manager and in the view). *)
Theorem delete_message_unconditional (user i : string) (w : Whiteboard) :
  let w' := onMessage user (MsgDelete (Some i)) w in
  crdtManager w' = deleteElement i (crdtManager w) ∧
  elements (crdtManager w') = delete i (elements (crdtManager w)) ∧
  elements (crdtManager w') !! i = None ∧
  vector (crdtManager w') = vector (crdtManager w) ∧
  view w' !! i = None.
Proof.
  simpl. repeat split; apply lookup_delete_eq.
Qed.

(** ** No deleted element is ever stored *)

Lemma no_deleted_stored_new (u : string) : no_deleted_stored (new_CRDTManager u).
Proof. intros i el Hin. simpl in Hin. by rewrite lookup_empty in Hin. Qed.

Lemma no_deleted_stored_applyOperation (e : WhiteboardElement) (m : CRDTManager) :
  no_deleted_stored m → no_deleted_stored (applyOperation e m).1.
Proof.
  intros Hinv. rewrite applyOperation_eq.
  destruct (decision e (elements m !! id e)); [ | exact Hinv].
  intros i el. simpl. unfold store_effect.
  destruct (is_deleted e) eqn:Hdel.
  - intros Hin%lookup_delete_Some. destruct Hin as [_ Hin]. by apply (Hinv i).
  - intros Hin%lookup_insert_Some.
    destruct Hin as [[_ <-] | [_ Hin]]; [ | by apply (Hinv i)].
    intros Hd%is_deleted_spec. congruence.
Qed.

Lemma no_deleted_stored_merge (l : list WhiteboardElement) (m : CRDTManager) :
  no_deleted_stored m → no_deleted_stored (merge l m).
Proof.
  unfold merge. revert m.
  induction l as [|e l IH]; intros m Hinv; simpl; [exact Hinv | ].
  apply IH. by apply no_deleted_stored_applyOperation.
Qed.

Lemma no_deleted_stored_deleteElement (i : string) (m : CRDTManager) :
  no_deleted_stored m → no_deleted_stored (deleteElement i m).
Proof.
  intros Hinv j el. simpl.
  intros Hin%lookup_delete_Some. destruct Hin as [_ Hin]. by apply (Hinv j).
Qed.

Lemma no_deleted_stored_clear (m : CRDTManager) : no_deleted_stored (clear m).
Proof. intros i el Hin. simpl in Hin. by rewrite lookup_empty in Hin. Qed.

Lemma no_deleted_stored_call (c : Call) (m : CRDTManager) :
  no_deleted_stored m → no_deleted_stored (call c m).
Proof.
  destruct c; simpl; intros Hinv.
  - by apply no_deleted_stored_applyOperation.
  - by apply no_deleted_stored_merge.
  - by apply no_deleted_stored_deleteElement.
  - apply no_deleted_stored_clear.
Qed.

Lemma no_deleted_stored_calls (cs : list Call) (m : CRDTManager) :
  no_deleted_stored m → no_deleted_stored (calls cs m).
Proof.
  unfold calls. revert m.
  induction cs as [|c cs IH]; intros m Hinv; simpl; [exact Hinv | ].
  apply IH. by apply no_deleted_stored_call.
Qed.

Lemma getAllElements_all (m : CRDTManager) :
  no_deleted_stored m → getAllElements m = (map_to_list (elements m)).*2.
Proof.
  intros Hinv. unfold getAllElements.
  assert (Hall : Forall (λ el, is_deleted el = false) (map_to_list (elements m)).*2).
  { apply Forall_forall. intros el Hel.
    apply list_elem_of_fmap in Hel as ([i el'] & -> & Hin).
    apply elem_of_map_to_list in Hin. simpl.
    apply not_true_is_false. intros Hd%is_deleted_spec. by apply (Hinv i el'). }
  induction Hall as [|el l Hel Hall IH]; [reflexivity | ].
  rewrite filter_cons_True by exact Hel. by rewrite IH.
Qed.

(** C10. After any sequence of [applyOperation], [merge], [deleteElement]
    and [clear] calls on a new manager, no stored element has
    [deleted = true], and [getAllElements] returns all the values of the
    map: its filter removes nothing. *)
Theorem stored_elements_not_deleted (u : string) (cs : list Call) :
  let m := calls cs (new_CRDTManager u) in
  (∀ i el, elements m !! i = Some el → deleted el ≠ Some true) ∧
  getAllElements m = (map_to_list (elements m)).*2 ∧
  (∀ el, el ∈ getAllElements m ↔ ∃ i, elements m !! i = Some el).
Proof.
  intros m.
  assert (Hinv : no_deleted_stored m).
  { apply no_deleted_stored_calls, no_deleted_stored_new. }
  split; [exact Hinv | ]. split; [by apply getAllElements_all | ].
  intros el. rewrite getAllElements_all by exact Hinv.
  rewrite list_elem_of_fmap. split.
  - intros ([i el'] & -> & Hin). exists i. by apply elem_of_map_to_list.
  - intros (i & Hin). exists (i, el). split; [reflexivity | ].
    by apply elem_of_map_to_list.
Qed.

Lemma stored_elements_not_deleted_witness :
  let e := sample_markdown "md-1" "bob" 1000 "note" in
  let m := calls [CallApplyOperation e; CallMerge [sample_delete "md-2" "bob" 5]]
                 (new_CRDTManager "alice") in
  deleted e ≠ Some true ∧ getAllElements m = (map_to_list (elements m)).*2.
Proof.
  intros e m.
  destruct (stored_elements_not_deleted "alice"
              [CallApplyOperation e; CallMerge [sample_delete "md-2" "bob" 5]])
    as (Hstored & Hall & _).
  split; [ | exact Hall].
  apply (Hstored "md-1" e). vm_compute. reflexivity.
Defined.

(** ** Operations on different ids commute *)

Lemma store_effect_lookup_ne (e : WhiteboardElement)
    (els : gmap string WhiteboardElement) (i : string) :
  id e ≠ i → store_effect e els !! i = els !! i.
Proof.
  intros Hne. unfold store_effect. destruct (is_deleted e).
  - by apply lookup_delete_ne.
  - by apply lookup_insert_ne.
Qed.

Lemma store_effect_comm (a b : WhiteboardElement) (els : gmap string WhiteboardElement) :
  id a ≠ id b →
  store_effect a (store_effect b els) = store_effect b (store_effect a els).
Proof.
  intros Hne. unfold store_effect.
  destruct (is_deleted a), (is_deleted b).
  - apply delete_delete.
  - by rewrite delete_insert_ne.
  - by rewrite delete_insert_ne.
  - by apply insert_insert_ne.
Qed.

(** C6. For two elements with different ids and any manager, applying one
    then the other gives the same manager (map, counters and owner) in both
    orders; each call also returns the same value in both orders. *)
Theorem applyOperation_distinct_ids_commute (a b : WhiteboardElement) (m : CRDTManager) :
  id a ≠ id b →
  (applyOperation b (applyOperation a m).1).1 = (applyOperation a (applyOperation b m).1).1 ∧
  (applyOperation b (applyOperation a m).1).2 = (applyOperation b m).2 ∧
  (applyOperation a (applyOperation b m).1).2 = (applyOperation a m).2.
Proof.
  intros Hne.
  assert (Hb : elements (applyOperation a m).1 !! id b = elements m !! id b).
  { rewrite applyOperation_eq. destruct (decision a _); [ | reflexivity].
    simpl. by apply store_effect_lookup_ne. }
  assert (Ha : elements (applyOperation b m).1 !! id a = elements m !! id a).
  { rewrite applyOperation_eq. destruct (decision b _); [ | reflexivity].
    simpl. apply store_effect_lookup_ne. congruence. }
  split; [ | split; rewrite !applyOperation_result; congruence].
  rewrite (applyOperation_eq b (applyOperation a m).1), Hb.
  rewrite (applyOperation_eq a (applyOperation b m).1), Ha.
  rewrite (applyOperation_eq a m), (applyOperation_eq b m).
  destruct (decision a (elements m !! id a)), (decision b (elements m !! id b));
    simpl; try reflexivity.
  change (updateVectorClock (userId b)
            (set_elements (store_effect b (store_effect a (elements m)))
               (updateVectorClock (userId a) m)) =
          updateVectorClock (userId a)
            (set_elements (store_effect a (store_effect b (elements m)))
               (updateVectorClock (userId b) m))).
  rewrite (store_effect_comm a b) by exact Hne.
  unfold updateVectorClock, set_elements. simpl. f_equal.
  destruct (decide (userId a = userId b)) as [-> | Hu].
  - rewrite !lookup_insert_eq. reflexivity.
  - rewrite !lookup_insert_ne by congruence.
    apply insert_insert_ne. congruence.
Qed.

Lemma applyOperation_distinct_ids_commute_witness :
  let a := sample_markdown "md-1" "bob" 1000 "note" in
  let b := sample_delete "md-2" "bob" 900 in
  let m := holding "alice" (sample_markdown "md-2" "alice" 500 "old") in
  (applyOperation b (applyOperation a m).1).1 = (applyOperation a (applyOperation b m).1).1.
Proof.
  intros a b m.
  apply (applyOperation_distinct_ids_commute a b m).
  vm_compute. discriminate.
Defined.

(** ** Applying an accepted operation again *)

Lemma str_gt_irrefl (s : string) : str_gt s s = false.
Proof.
  unfold str_gt, String.ltb.
  pose proof (String.compare_antisym s s) as Hanti.
  destruct (String.compare s s); [reflexivity | discriminate | reflexivity].
Qed.

Lemma resolveConcurrentConflict_same (e : WhiteboardElement) :
  resolveConcurrentConflict e e = false.
Proof.
  unfold resolveConcurrentConflict, resolveStrokes, resolveShapes.
  rewrite String.eqb_refl, Z.ltb_irrefl, str_gt_irrefl.
  destruct (type e); [ | reflexivity].
  destruct (is_pen_or_eraser (data_tool (data e))); [reflexivity | ].
  simpl. by destruct (isElementComplete e).
Qed.

Lemma shouldApplyOperation_same (e : WhiteboardElement) :
  shouldApplyOperation e e = false.
Proof.
  unfold shouldApplyOperation, areConcurrent.
  rewrite Z.sub_diag. simpl. apply resolveConcurrentConflict_same.
Qed.

Lemma set_elements_same (m : CRDTManager) : set_elements (elements m) m = m.
Proof. by destruct m. Qed.

(** C5 (as the code has it). When [applyOperation e] is accepted, applying
    [e] again leaves the map as the first application left it.  If [e] is
    not a deletion the second application is rejected and the whole manager,
    counters included, is unchanged.  If [e] is a deletion the second
    application finds nothing under the id, is accepted again and increments
    the counter of [userId e] once more. *)
Theorem applyOperation_twice (e : WhiteboardElement) (m : CRDTManager) :
  (applyOperation e m).2 = true →
  let m1 := (applyOperation e m).1 in
  elements (applyOperation e m1).1 = elements m1 ∧
  (deleted e ≠ Some true → applyOperation e m1 = (m1, false)) ∧
  (deleted e = Some true →
     applyOperation e m1 = (updateVectorClock (userId e) m1, true)).
Proof.
  intros Hacc m1.
  assert (Hm1 : elements m1 = store_effect e (elements m)).
  { subst m1. by rewrite (applyOperation_accepted _ _ Hacc). }
  assert (Hlive : deleted e ≠ Some true → applyOperation e m1 = (m1, false)).
  { intros Hd.
    assert (Hdel : is_deleted e = false).
    { apply not_true_is_false. by intros ?%is_deleted_spec. }
    rewrite applyOperation_eq, Hm1. unfold store_effect, decision.
    by rewrite Hdel, lookup_insert_eq, shouldApplyOperation_same. }
  assert (Hdead : deleted e = Some true →
            applyOperation e m1 = (updateVectorClock (userId e) m1, true)).
  { intros Hdel%is_deleted_spec.
    rewrite applyOperation_eq, Hm1. unfold store_effect, decision.
    rewrite Hdel, lookup_delete_eq, delete_delete_eq.
    replace (delete (id e) (elements m)) with (elements m1)
      by (rewrite Hm1; unfold store_effect; by rewrite Hdel).
    by rewrite set_elements_same. }
  split; [ | split; assumption].
  destruct (decide (deleted e = Some true)) as [Hd | Hd].
  - by rewrite (Hdead Hd).
  - by rewrite (Hlive Hd).
Qed.

Lemma applyOperation_twice_witness :
  let e := sample_markdown "md-1" "bob" 1000 "note" in
  let m1 := (applyOperation e (new_CRDTManager "alice")).1 in
  applyOperation e m1 = (m1, false).
Proof.
  intros e m1.
  destruct (applyOperation_twice e (new_CRDTManager "alice") eq_refl) as (_ & Hlive & _).
  apply Hlive. discriminate.
Defined.

(** C5 as stated fails on a deletion: a delete of an absent id is accepted
    each time it is applied, and each acceptance increments the counter of
    its author. *)
Lemma applyOperation_twice_counterexample :
  let e := sample_delete "md-1" "bob" 2000 in
  let m := new_CRDTManager "alice" in
  (applyOperation e m).2 = true ∧
  vector (applyOperation e m).1 !! "bob" = Some 1 ∧
  vector (applyOperation e (applyOperation e m).1).1 !! "bob" = Some 2 ∧
  (applyOperation e (applyOperation e m).1).1 ≠ (applyOperation e m).1.
Proof.
  intros e m.
  assert (H1 : vector (applyOperation e m).1 !! "bob" = Some 1) by reflexivity.
  assert (H2 : vector (applyOperation e (applyOperation e m).1).1 !! "bob" = Some 2)
    by reflexivity.
  repeat split; try assumption.
  intros Heq. rewrite Heq in H2. rewrite H1 in H2. discriminate.
Qed.

(** ** Concurrent strokes of different authors *)

Lemma shouldApplyOperation_concurrent (inc ex : WhiteboardElement) :
  Z.abs (timestamp inc - timestamp ex) ≤ 500 →
  shouldApplyOperation inc ex = resolveConcurrentConflict inc ex.
Proof.
  intros Hgap. unfold shouldApplyOperation, areConcurrent.
  destruct (Z.ltb_spec 1000 (Z.abs (timestamp inc - timestamp ex))); [lia | ].
  destruct (Z.leb_spec (Z.abs (timestamp inc - timestamp ex)) 500); [reflexivity | lia].
Qed.

Lemma applyOperation_live_result (inc ex : WhiteboardElement) (m : CRDTManager) :
  deleted inc ≠ Some true →
  elements m !! id inc = Some ex →
  (applyOperation inc m).2 = shouldApplyOperation inc ex.
Proof.
  intros Hd Hex. rewrite applyOperation_result, Hex. unfold decision.
  destruct (is_deleted inc) eqn:Hdel; [ | reflexivity].
  by apply is_deleted_spec in Hdel.
Qed.

Lemma applyOperation_live_stored (inc : WhiteboardElement) (m : CRDTManager) :
  deleted inc ≠ Some true →
  (applyOperation inc m).2 = true →
  elements (applyOperation inc m).1 !! id inc = Some inc.
Proof.
  intros Hd Hacc. rewrite (applyOperation_accepted _ _ Hacc). simpl.
  unfold store_effect. destruct (is_deleted inc) eqn:Hdel.
  - by apply is_deleted_spec in Hdel.
  - apply lookup_insert_eq.
Qed.

(** C4. Two stroke drawings (pen or eraser) under one id, by different
    authors, with timestamps at most 500ms apart: when the first points of
    the two paths are less than 10 units apart on both axes, the incoming
    one is accepted exactly when its timestamp is greater; otherwise it is
    accepted and stored under the id. *)
Theorem concurrent_strokes_rule (inc ex : WhiteboardElement) (m : CRDTManager) :
  deleted inc ≠ Some true →
  elements m !! id inc = Some ex →
  type inc = drawing → type ex = drawing →
  is_pen_or_eraser (data_tool (data inc)) = true →
  is_pen_or_eraser (data_tool (data ex)) = true →
  userId inc ≠ userId ex →
  Z.abs (timestamp inc - timestamp ex) ≤ 500 →
  let p := first_pos (path_or_points (data inc)) in
  let q := first_pos (path_or_points (data ex)) in
  let r := applyOperation inc m in
  (Z.abs (x p - x q) < 10 ∧ Z.abs (y p - y q) < 10 →
     (r.2 = true ↔ timestamp inc > timestamp ex)) ∧
  (¬ (Z.abs (x p - x q) < 10 ∧ Z.abs (y p - y q) < 10) →
     r.2 = true ∧ elements r.1 !! id inc = Some inc).
Proof.
  intros Hd Hex Hti Hte Hpi _ Hu Hgap p q r.
  assert (Hr : r.2 =
    if (Z.abs (x p - x q) <? 10) && (Z.abs (y p - y q) <? 10)
    then timestamp ex <? timestamp inc else true).
  { subst r. rewrite (applyOperation_live_result inc ex m Hd Hex).
    rewrite (shouldApplyOperation_concurrent _ _ Hgap).
    unfold resolveConcurrentConflict, resolveStrokes.
    rewrite Hti, Hte, Hpi. apply String.eqb_neq in Hu. rewrite Hu.
    fold p q. by destruct (_ && _). }
  split.
  - intros [Hx Hy]. rewrite Hr.
    rewrite (proj2 (Z.ltb_lt _ _) Hx), (proj2 (Z.ltb_lt _ _) Hy). simpl.
    rewrite Z.ltb_lt. lia.
  - intros Hfar.
    assert (Hacc : r.2 = true).
    { rewrite Hr.
      destruct (Z.ltb_spec (Z.abs (x p - x q)) 10);
        destruct (Z.ltb_spec (Z.abs (y p - y q)) 10); simpl; try reflexivity.
      exfalso. apply Hfar. by split. }
    split; [exact Hacc | ]. by apply applyOperation_live_stored.
Qed.

Lemma concurrent_strokes_rule_witness :
  let ex := sample_stroke "draw-1" "alice" 1000 [{| x := 10; y := 10 |}] in
  let inc := sample_stroke "draw-1" "bob" 900 [{| x := 200; y := 15 |}] in
  let m := holding "alice" ex in
  (applyOperation inc m).2 = true ∧
  elements (applyOperation inc m).1 !! "draw-1" = Some inc.
Proof.
  intros ex inc m.
  assert (Hd : deleted inc ≠ Some true) by discriminate.
  assert (Hex : elements m !! id inc = Some ex) by reflexivity.
  assert (Hu : userId inc ≠ userId ex) by (vm_compute; discriminate).
  assert (Hgap : Z.abs (timestamp inc - timestamp ex) ≤ 500) by (vm_compute; discriminate).
  destruct (concurrent_strokes_rule inc ex m Hd Hex eq_refl eq_refl eq_refl eq_refl Hu Hgap)
    as [_ Hfar].
  apply Hfar. vm_compute. intros [Hx _]. discriminate Hx.
Defined.

(** ** Equal timestamps: the author tiebreak and the rules before it *)

(** C2 (as the code has it). For a non-deleted incoming element and a
    stored one under the same id with the same timestamp, one by "alice" and
    the other by "bob", the incoming element is accepted exactly when its
    author is "bob", provided the kind-specific rules leave the tie open:
    the pair is not a pen or eraser drawing arriving on a drawing, and, when
    the incoming element is a drawing that is not a stroke, the two are both
    complete or both incomplete. *)
Theorem author_tiebreak (inc ex : WhiteboardElement) (m : CRDTManager) :
  deleted inc ≠ Some true →
  elements m !! id inc = Some ex →
  timestamp inc = timestamp ex →
  (userId inc = "alice" ∧ userId ex = "bob") ∨ (userId inc = "bob" ∧ userId ex = "alice") →
  ¬ (type inc = drawing ∧ type ex = drawing ∧
     is_pen_or_eraser (data_tool (data inc)) = true) →
  (type inc = drawing → is_pen_or_eraser (data_tool (data inc)) = false →
     isElementComplete inc = isElementComplete ex) →
  ((applyOperation inc m).2 = true ↔ userId inc = "bob").
Proof.
  intros Hd Hex Hts Hauthors Hstroke Hshape.
  rewrite (applyOperation_live_result inc ex m Hd Hex).
  rewrite shouldApplyOperation_concurrent by (rewrite Hts, Z.sub_diag; simpl; lia).
  assert (Hs : resolveStrokes inc ex = None).
  { unfold resolveStrokes.
    destruct (type inc) eqn:Hti, (type ex) eqn:Hte; try reflexivity.
    destruct (is_pen_or_eraser (data_tool (data inc))) eqn:Hp; [ | reflexivity].
    exfalso. apply Hstroke. by repeat split. }
  assert (Hc : resolveShapes inc ex = None).
  { unfold resolveShapes.
    destruct (type inc) eqn:Hti; [ | reflexivity].
    destruct (is_pen_or_eraser (data_tool (data inc))) eqn:Hp; [reflexivity | ].
    simpl. rewrite <- (Hshape eq_refl eq_refl).
    by destruct (isElementComplete inc). }
  unfold resolveConcurrentConflict. rewrite Hs, Hc.
  destruct Hauthors as [[-> ->] | [-> ->]]; split; intros H; try reflexivity;
    discriminate H.
Qed.

Lemma author_tiebreak_witness :
  let ex := sample_markdown "md-1" "alice" 1000 "old" in
  let inc := sample_markdown "md-1" "bob" 1000 "new" in
  (applyOperation inc (holding "alice" ex)).2 = true.
Proof.
  intros ex inc.
  apply (author_tiebreak inc ex (holding "alice" ex)).
  - discriminate.
  - reflexivity.
  - reflexivity.
  - right. split; reflexivity.
  - intros (Hty & _). discriminate Hty.
  - intros Hty. discriminate Hty.
  - reflexivity.
Defined.

(** C2 as stated fails on strokes.  With equal timestamps, a pen stroke by
    "alice" whose first point is far from that of the stored stroke by "bob"
    is accepted, and a pen stroke by "bob" whose first point is close to
    that of the stored stroke by "alice" is rejected. *)
Lemma author_tiebreak_counterexample :
  let far_ex := sample_stroke "draw-1" "bob" 1000 [{| x := 100; y := 100 |}] in
  let far_inc := sample_stroke "draw-1" "alice" 1000 [{| x := 0; y := 0 |}] in
  let near_ex := sample_stroke "draw-2" "alice" 1000 [{| x := 3; y := 3 |}] in
  let near_inc := sample_stroke "draw-2" "bob" 1000 [{| x := 0; y := 0 |}] in
  (deleted far_inc = None ∧ deleted far_ex = None ∧
   id far_inc = id far_ex ∧ timestamp far_inc = timestamp far_ex ∧
   userId far_inc = "alice" ∧ userId far_ex = "bob" ∧
   applyOperation far_inc (holding "bob" far_ex) =
     (updateVectorClock "alice"
        (set_elements {[ "draw-1" := far_inc ]} (holding "bob" far_ex)), true)) ∧
  (deleted near_inc = None ∧ deleted near_ex = None ∧
   id near_inc = id near_ex ∧ timestamp near_inc = timestamp near_ex ∧
   userId near_inc = "bob" ∧ userId near_ex = "alice" ∧
   applyOperation near_inc (holding "alice" near_ex) = (holding "alice" near_ex, false)).
Proof.
  intros far_ex far_inc near_ex near_inc.
  split.
  - repeat split.
  - repeat split.
Qed.

(** ** Completeness *)

Lemma concurrent_shape_completeness (inc ex : WhiteboardElement) (m : CRDTManager) :
  deleted inc ≠ Some true →
  elements m !! id inc = Some ex →
  type inc = drawing →
  is_pen_or_eraser (data_tool (data inc)) = false →
  Z.abs (timestamp inc - timestamp ex) ≤ 500 →
  (isElementComplete inc = true → isElementComplete ex = false →
     (applyOperation inc m).2 = true) ∧
  (isElementComplete inc = false → isElementComplete ex = true →
     applyOperation inc m = (m, false)).
Proof.
  intros Hd Hex Hti Hp Hgap.
  assert (Hr : (applyOperation inc m).2 = resolveConcurrentConflict inc ex).
  { rewrite (applyOperation_live_result inc ex m Hd Hex).
    by apply shouldApplyOperation_concurrent. }
  assert (Hs : resolveStrokes inc ex = None).
  { unfold resolveStrokes. rewrite Hti, Hp. by destruct (type ex). }
  unfold resolveConcurrentConflict, resolveShapes in Hr. rewrite Hs, Hti, Hp in Hr.
  simpl in Hr. split.
  - intros Hci Hce. by rewrite Hr, Hci, Hce.
  - intros Hci Hce. rewrite Hci, Hce in Hr. simpl in Hr.
    rewrite (surjective_pairing (applyOperation inc m)), Hr.
    by rewrite (applyOperation_rejected _ _ Hr).
Qed.

(** The scenario of the specification: a rectangle with only its start
    coordinates, 200ms newer than the stored complete rectangle of the same
    id, is rejected and the stored rectangle stays. *)
Lemma partial_rectangle_rejected :
  let ex := sample_rectangle "draw-1" "alice" 1000 (Some 10) (Some 10) (Some 80) (Some 60) in
  let inc := sample_rectangle "draw-1" "bob" 1200 (Some 10) (Some 10) None None in
  isElementComplete ex = true ∧ isElementComplete inc = false ∧
  applyOperation inc (holding "alice" ex) = (holding "alice" ex, false).
Proof. repeat split. Qed.

(** C3, where the code departs from it.  The completeness rule is applied
    only when the incoming element is a drawing: for two markdown elements
    200ms apart, the complete incoming one by "alice" is rejected against an
    incomplete stored one by "bob", and an incomplete incoming one by "bob"
    replaces a complete stored one by "alice".  The author decides, not
    completeness. *)
Theorem markdown_completeness_not_applied :
  let blank_ex := sample_markdown "md-1" "bob" 1000 "   " in
  let full_inc := sample_markdown "md-1" "alice" 1200 "# Title" in
  let full_ex := sample_markdown "md-2" "alice" 1000 "# Title" in
  let blank_inc := sample_markdown "md-2" "bob" 1200 "   " in
  (isElementComplete full_inc = true ∧ isElementComplete blank_ex = false ∧
   Z.abs (timestamp full_inc - timestamp blank_ex) ≤ 500 ∧
   applyOperation full_inc (holding "bob" blank_ex) = (holding "bob" blank_ex, false)) ∧
  (isElementComplete blank_inc = false ∧ isElementComplete full_ex = true ∧
   Z.abs (timestamp blank_inc - timestamp full_ex) ≤ 500 ∧
   (applyOperation blank_inc (holding "alice" full_ex)).2 = true ∧
   elements (applyOperation blank_inc (holding "alice" full_ex)).1 !! "md-2" = Some blank_inc).
Proof.
  repeat split; try reflexivity; vm_compute; discriminate.
Qed.

(** ** Reconnection *)

Lemma attemptReconnect_below_cap (s : WebSocketService) (url : string) :
  reconnectAttempts s < maxReconnectAttempts →
  attemptReconnect url (roomId s) s =
    (set_reconnectAttempts (reconnectAttempts s + 1) s,
     [SetTimeout (reconnectDelay * (reconnectAttempts s + 1)) url (roomId s)]).
Proof.
  intros Hlt. unfold attemptReconnect.
  rewrite (proj2 (Z.ltb_lt _ _) Hlt), String.eqb_refl. reflexivity.
Qed.

Lemma attemptReconnect_at_cap (s : WebSocketService) (url room : string) :
  maxReconnectAttempts ≤ reconnectAttempts s →
  attemptReconnect url room s = (s, []).
Proof.
  intros Hge. unfold attemptReconnect.
  destruct (Z.ltb_spec (reconnectAttempts s) maxReconnectAttempts); [lia | reflexivity].
Qed.

Lemma handle_no_reset (ev : Event) (s : WebSocketService) :
  resets_counter ev = false →
  reconnectAttempts s ≤ reconnectAttempts (handle ev s).1.
Proof.
  destruct ev; simpl; try discriminate; intros _; try lia.
  - unfold onclose, attemptReconnect.
    destruct (_ && _); simpl; lia.
  - unfold reconnectTimer. destruct (String.eqb _ _); simpl; lia.
Qed.

Lemma handle_at_cap (ev : Event) (s : WebSocketService) :
  resets_counter ev = false →
  reconnectAttempts s = maxReconnectAttempts →
  reconnectAttempts (handle ev s).1 = maxReconnectAttempts ∧
  timeout_delays (handle ev s).2 = [].
Proof.
  destruct ev; simpl; try discriminate; intros _ Hcap; try (split; [exact Hcap | reflexivity]).
  - unfold onclose. rewrite attemptReconnect_at_cap by lia. by split.
  - unfold reconnectTimer. destruct (String.eqb _ _); by split.
Qed.

Lemma run_at_cap (evs : list Event) (s : WebSocketService) :
  Forall (λ ev, resets_counter ev = false) evs →
  reconnectAttempts s = maxReconnectAttempts →
  reconnectAttempts (run evs s).1 = maxReconnectAttempts ∧
  timeout_delays (run evs s).2 = [].
Proof.
  intros Hall. revert s.
  induction Hall as [|ev evs Hev Hall IH]; intros s Hcap; simpl; [by split | ].
  destruct (handle_at_cap ev s Hev Hcap) as [Hcap' Hnone].
  destruct (IH _ Hcap') as [Hcap'' Hnone'].
  split; [exact Hcap'' | ].
  unfold timeout_delays in *. by rewrite omap_app, Hnone, Hnone'.
Qed.

Lemma run_closes (k : nat) (a : Z) (s : WebSocketService) (url : string)
    (rest : list Event) :
  reconnectAttempts s = a →
  a + Z.of_nat k ≤ maxReconnectAttempts →
  run (replicate k (EvClose url (roomId s)) ++ rest) s =
    let s' := set_reconnectAttempts (a + Z.of_nat k) s in
    ((run rest s').1,
     (map (λ i, SetTimeout (reconnectDelay * (a + Z.of_nat i)) url (roomId s)) (seq 1 k)
      ++ (run rest s').2)%list).
Proof.
  revert a s. induction k as [|k IH]; intros a s Ha Hle.
  - simpl. rewrite Z.add_0_r, <- Ha.
    replace (set_reconnectAttempts (reconnectAttempts s) s) with s by (by destruct s).
    by destruct (run rest s).
  - cbn [replicate app run handle onclose].
    rewrite attemptReconnect_below_cap by lia.
    cbn [fst snd]. rewrite Ha.
    pose proof (IH (a + 1) (set_reconnectAttempts (a + 1) s) eq_refl) as Hk.
    cbn [roomId set_reconnectAttempts] in Hk.
    rewrite Hk by lia. clear Hk.
    cbn zeta. cbn [roomId set_reconnectAttempts clientId currentUrl reconnectAttempts fst snd].
    replace (a + 1 + Z.of_nat k) with (a + Z.of_nat (S k)) by lia.
    f_equal. cbn [app seq map]. f_equal.
    f_equal. rewrite <- (seq_shift k 1), map_map.
    apply map_ext. intros i. f_equal. lia.
Qed.

(** C9. The [n]-th consecutive call of [attemptReconnect] (for the current
    room, the counter being [n - 1] before it) schedules its reconnect after
    [n × 1000] ms, for [n] from 1 to 5: closing a new service seven times in
    a row schedules delays of 1000, 2000, 3000, 4000 and 5000 ms and no
    more.  With the counter at 5, [attemptReconnect] schedules nothing and
    leaves the service unchanged.  [onopen] and [switchRoom] set the counter
    to 0 and no other event lowers it, so from a counter at 5 no sequence of
    events without an open or a room switch schedules a reconnect. *)
Theorem reconnect_backoff :
  (∀ (s : WebSocketService) (url : string) (n : Z),
     1 ≤ n ≤ 5 → reconnectAttempts s = n - 1 →
     attemptReconnect url (roomId s) s =
       (set_reconnectAttempts n s, [SetTimeout (n * 1000) url (roomId s)])) ∧
  (∀ (client room url : string),
     timeout_delays (run (replicate 7 (EvClose url room)) (new_WebSocketService client room)).2
     = [1000; 2000; 3000; 4000; 5000]) ∧
  (∀ (s : WebSocketService) (url room : string),
     reconnectAttempts s = 5 → attemptReconnect url room s = (s, [])) ∧
  (∀ (ev : Event) (s : WebSocketService),
     resets_counter ev = true → reconnectAttempts (handle ev s).1 = 0) ∧
  (∀ (ev : Event) (s : WebSocketService),
     resets_counter ev = false →
     reconnectAttempts s ≤ reconnectAttempts (handle ev s).1) ∧
  (∀ (evs : list Event) (s : WebSocketService),
     reconnectAttempts s = 5 →
     Forall (λ ev, resets_counter ev = false) evs →
     reconnectAttempts (run evs s).1 = 5 ∧ timeout_delays (run evs s).2 = []).
Proof.
  repeat apply conj.
  - intros s url n Hn Hs.
    rewrite attemptReconnect_below_cap by (unfold maxReconnectAttempts; lia).
    rewrite Hs. unfold reconnectDelay.
    replace (n - 1 + 1) with n by lia. by rewrite (Z.mul_comm 1000 n).
  - intros client room url.
    change (replicate 7 (EvClose url room))
      with (replicate 5 (EvClose url room) ++ replicate 2 (EvClose url room))%list.
    pose proof (run_closes 5 0 (new_WebSocketService client room) url
                  (replicate 2 (EvClose url room)) eq_refl) as Hfive.
    cbn [roomId new_WebSocketService] in Hfive.
    rewrite Hfive by (unfold maxReconnectAttempts; simpl; lia). clear Hfive.
    cbn zeta. cbn [snd]. unfold timeout_delays. rewrite omap_app.
    assert (Hcap : reconnectAttempts
              (set_reconnectAttempts (0 + Z.of_nat 5) (new_WebSocketService client room))
            = maxReconnectAttempts) by reflexivity.
    destruct (run_at_cap (replicate 2 (EvClose url room)) _
                ltac:(repeat constructor) Hcap) as [_ Hnone].
    unfold timeout_delays in Hnone. rewrite Hnone. reflexivity.
  - intros s url room Hs. apply attemptReconnect_at_cap.
    unfold maxReconnectAttempts. lia.
  - intros [] s; simpl; try discriminate; reflexivity.
  - apply handle_no_reset.
  - intros evs s Hs Hall. by apply run_at_cap.
Qed.

Lemma reconnect_backoff_witness :
  let s := set_reconnectAttempts 2 (new_WebSocketService "user-1" "room-a") in
  attemptReconnect "http://host" "room-a" s =
    (set_reconnectAttempts 3 s, [SetTimeout 3000 "http://host" "room-a"]) ∧
  timeout_delays
    (run [EvClose "http://host" "room-a"; EvTimer "http://host" "room-a"; EvOther]
         (set_reconnectAttempts 5 s)).2 = [].
Proof.
  intros s.
  destruct reconnect_backoff as (Hdelay & _ & _ & _ & _ & Hstuck).
  split.
  - apply (Hdelay s "http://host" 3); [lia | reflexivity].
  - apply (Hstuck [EvClose "http://host" "room-a"; EvTimer "http://host" "room-a"; EvOther]
             (set_reconnectAttempts 5 s)).
    + reflexivity.
    + repeat constructor.
Defined.

(** * Further properties of the manager *)

(** ** Outside the concurrency window *)

Lemma shouldApplyOperation_outside_window (inc ex : WhiteboardElement) :
  500 < Z.abs (timestamp inc - timestamp ex) →
  shouldApplyOperation inc ex = (timestamp ex <? timestamp inc).
Proof.
  intros Hgap. unfold shouldApplyOperation, areConcurrent.
  destruct (Z.ltb_spec 1000 (Z.abs (timestamp inc - timestamp ex))); [reflexivity | ].
  destruct (Z.leb_spec (Z.abs (timestamp inc - timestamp ex)) 500); [lia | ].
  destruct (Z.ltb_spec (timestamp ex) (timestamp inc)); [reflexivity | ].
  destruct (Z.eqb_spec (timestamp inc) (timestamp ex)); [ | reflexivity].
  lia.
Qed.

Lemma decision_outside_window (inc ex : WhiteboardElement) :
  500 < Z.abs (timestamp inc - timestamp ex) →
  decision inc (Some ex) = (timestamp ex <? timestamp inc).
Proof.
  intros Hgap. unfold decision.
  destruct (is_deleted inc); [reflexivity | ].
  by apply shouldApplyOperation_outside_window.
Qed.

(** X1. When the timestamps of the incoming and the stored element are more
    than 500ms apart, the incoming one is accepted exactly when it is newer,
    whatever the kinds, the authors and the [deleted] flag are: the branch
    for more than one second and the default branch give the same answer,
    and the comparison of authors on equal timestamps in the default branch
    never decides. *)
Theorem outside_window_last_write_wins (inc ex : WhiteboardElement) (m : CRDTManager) :
  elements m !! id inc = Some ex →
  500 < Z.abs (timestamp inc - timestamp ex) →
  ((applyOperation inc m).2 = true ↔ timestamp inc > timestamp ex).
Proof.
  intros Hex Hgap.
  rewrite applyOperation_result, Hex, decision_outside_window by exact Hgap.
  rewrite Z.ltb_lt. lia.
Qed.

Lemma outside_window_last_write_wins_witness :
  let ex := sample_stroke "draw-1" "bob" 1000 [{| x := 0; y := 0 |}] in
  let inc := sample_markdown "draw-1" "alice" 1700 "late" in
  (applyOperation inc (holding "bob" ex)).2 = true.
Proof.
  intros ex inc.
  apply (outside_window_last_write_wins inc ex (holding "bob" ex)).
  - reflexivity.
  - reflexivity.
  - reflexivity.
Defined.

(** ** Strokes of one author *)

(** X2. Within the window, a pen or eraser drawing arriving on a stored
    drawing of the same author is accepted exactly when its timestamp is
    greater; the positions of the strokes play no part. *)
Theorem same_author_strokes_rule (inc ex : WhiteboardElement) (m : CRDTManager) :
  deleted inc ≠ Some true →
  elements m !! id inc = Some ex →
  type inc = drawing → type ex = drawing →
  is_pen_or_eraser (data_tool (data inc)) = true →
  userId inc = userId ex →
  Z.abs (timestamp inc - timestamp ex) ≤ 500 →
  ((applyOperation inc m).2 = true ↔ timestamp inc > timestamp ex).
Proof.
  intros Hd Hex Hti Hte Hp Hu Hgap.
  rewrite (applyOperation_live_result inc ex m Hd Hex).
  rewrite (shouldApplyOperation_concurrent _ _ Hgap).
  unfold resolveConcurrentConflict, resolveStrokes.
  rewrite Hti, Hte, Hp, Hu, String.eqb_refl, Z.ltb_lt. lia.
Qed.

Lemma same_author_strokes_rule_witness :
  let ex := sample_stroke "draw-1" "bob" 1000 [{| x := 0; y := 0 |}] in
  let inc := sample_stroke "draw-1" "bob" 1100 [{| x := 300; y := 300 |}; {| x := 301; y := 300 |}] in
  (applyOperation inc (holding "alice" ex)).2 = true.
Proof.
  intros ex inc.
  apply (same_author_strokes_rule inc ex (holding "alice" ex)).
  - discriminate.
  - reflexivity.
  - reflexivity.
  - reflexivity.
  - reflexivity.
  - reflexivity.
  - vm_compute. discriminate.
  - reflexivity.
Defined.

(** ** No tombstones *)

(** X3. After an accepted deletion, any non-deleted element with the same
    id is accepted and stored, whatever its timestamp: an element older than
    the deletion comes back. *)
Theorem deleted_id_can_be_resurrected (d e : WhiteboardElement) (m : CRDTManager) :
  deleted d = Some true →
  (applyOperation d m).2 = true →
  deleted e ≠ Some true →
  id e = id d →
  let m1 := (applyOperation d m).1 in
  (applyOperation e m1).2 = true ∧
  elements (applyOperation e m1).1 !! id d = Some e.
Proof.
  intros Hd%is_deleted_spec Hacc He Hid m1.
  assert (Hgone : elements m1 !! id e = None).
  { subst m1. rewrite (applyOperation_accepted _ _ Hacc). simpl.
    unfold store_effect. rewrite Hd, Hid. apply lookup_delete_eq. }
  assert (Hacc' : (applyOperation e m1).2 = true).
  { by rewrite applyOperation_result, Hgone. }
  split; [exact Hacc' | ].
  rewrite <- Hid. by apply applyOperation_live_stored.
Qed.

Lemma deleted_id_can_be_resurrected_witness :
  let old := sample_markdown "md-1" "alice" 1000 "note" in
  let d := sample_delete "md-1" "bob" 9000 in
  let m1 := (applyOperation d (holding "alice" old)).1 in
  (applyOperation old m1).2 = true ∧
  elements (applyOperation old m1).1 !! "md-1" = Some old.
Proof.
  intros old d m1.
  apply (deleted_id_can_be_resurrected d old (holding "alice" old)).
  - reflexivity.
  - reflexivity.
  - discriminate.
  - reflexivity.
Defined.

(** ** What one operation touches *)

Lemma counter_updateVectorClock (u v : string) (m : CRDTManager) :
  counter u (updateVectorClock v m) =
  counter u m + (if bool_decide (v = u) then 1 else 0).
Proof.
  unfold counter, updateVectorClock. simpl.
  case_bool_decide as Huv.
  - subst v. by rewrite lookup_insert_eq.
  - rewrite lookup_insert_ne by exact Huv. lia.
Qed.

Lemma counter_applyOperation (u : string) (e : WhiteboardElement) (m : CRDTManager) :
  counter u (applyOperation e m).1 =
  counter u m + (if (applyOperation e m).2 && bool_decide (userId e = u) then 1 else 0).
Proof.
  rewrite applyOperation_eq. destruct (decision e _); simpl; [ | lia].
  rewrite counter_updateVectorClock. reflexivity.
Qed.

Lemma elements_applyOperation_ne (e : WhiteboardElement) (m : CRDTManager) (i : string) :
  i ≠ id e → elements (applyOperation e m).1 !! i = elements m !! i.
Proof.
  intros Hne. rewrite applyOperation_eq. destruct (decision e _); [ | reflexivity].
  simpl. apply store_effect_lookup_ne. congruence.
Qed.

Lemma mgr_userId_applyOperation (e : WhiteboardElement) (m : CRDTManager) :
  mgr_userId (applyOperation e m).1 = mgr_userId m.
Proof. rewrite applyOperation_eq. by destruct (decision e _). Qed.

(** X4. [applyOperation e] leaves every entry under another id, every
    counter of another user and the owner of the manager as they were; the
    counter of [userId e] grows by exactly one when the operation is
    accepted and is unchanged when it is rejected. *)
Theorem applyOperation_footprint (e : WhiteboardElement) (m : CRDTManager) :
  let r := applyOperation e m in
  mgr_userId r.1 = mgr_userId m ∧
  (∀ i, i ≠ id e → elements r.1 !! i = elements m !! i) ∧
  (∀ u, u ≠ userId e → vector r.1 !! u = vector m !! u) ∧
  counter (userId e) r.1 = counter (userId e) m + (if r.2 then 1 else 0).
Proof.
  intros r. subst r. repeat apply conj.
  - apply mgr_userId_applyOperation.
  - intros i Hne. by apply elements_applyOperation_ne.
  - intros u Hne. rewrite applyOperation_eq. destruct (decision e _); [ | reflexivity].
    simpl. apply lookup_insert_ne. congruence.
  - rewrite counter_applyOperation, bool_decide_eq_true_2 by reflexivity.
    by rewrite andb_true_r.
Qed.

Lemma applyOperation_footprint_witness :
  let e := sample_markdown "md-1" "bob" 1000 "new" in
  let m := holding "alice" (sample_markdown "md-2" "alice" 10 "other") in
  elements (applyOperation e m).1 !! "md-2" = elements m !! "md-2" ∧
  vector (applyOperation e m).1 !! "alice" = vector m !! "alice".
Proof.
  intros e m.
  destruct (applyOperation_footprint e m) as (_ & Hel & Hvec & _).
  split.
  - apply (Hel "md-2"). vm_compute. discriminate.
  - apply (Hvec "alice"). vm_compute. discriminate.
Defined.

(** ** What a batch touches *)

Lemma merge_cons (e : WhiteboardElement) (l : list WhiteboardElement) (m : CRDTManager) :
  merge (e :: l) m = merge l (applyOperation e m).1.
Proof. reflexivity. Qed.

(** X5. [merge] keeps the owner of the manager, leaves every entry whose
    id is not the id of an element of the batch as it was, and raises the
    counter of each user by at least zero and at most the number of
    elements of the batch authored by that user. *)
Theorem merge_footprint (l : list WhiteboardElement) (m : CRDTManager) :
  mgr_userId (merge l m) = mgr_userId m ∧
  (∀ i, i ∉ id <$> l → elements (merge l m) !! i = elements m !! i) ∧
  (∀ u, counter u m ≤ counter u (merge l m) ≤
        counter u m + Z.of_nat (length (authored_by u l))).
Proof.
  revert m. induction l as [|e l IH]; intros m.
  - repeat apply conj; try reflexivity.
    intros u. unfold merge. simpl. lia.
  - destruct (IH (applyOperation e m).1) as (Hown & Hel & Hcnt).
    rewrite merge_cons. repeat apply conj.
    + by rewrite Hown, mgr_userId_applyOperation.
    + intros i Hi. rewrite fmap_cons, not_elem_of_cons in Hi.
      destruct Hi as [Hne Hi].
      rewrite (Hel i Hi). by apply elements_applyOperation_ne.
    + intros u. specialize (Hcnt u).
      rewrite counter_applyOperation in Hcnt.
      unfold authored_by in *. rewrite filter_cons.
      destruct (decide (userId e = u)) as [Hu | Hu].
      * rewrite (bool_decide_eq_true_2 _ Hu) in Hcnt.
        destruct ((applyOperation e m).2); simpl in *; lia.
      * rewrite (bool_decide_eq_false_2 _ Hu), andb_false_r in Hcnt. lia.
Qed.

Lemma merge_footprint_witness :
  let l := [sample_markdown "md-1" "bob" 1000 "a"; sample_delete "md-3" "carol" 5] in
  let m := holding "alice" (sample_markdown "md-2" "alice" 10 "other") in
  elements (merge l m) !! "md-2" = elements m !! "md-2".
Proof.
  intros l m.
  destruct (merge_footprint l m) as (_ & Hel & _).
  apply (Hel "md-2"). vm_compute.
  intros Hin. repeat (apply elem_of_cons in Hin as [Hin | Hin]; [discriminate Hin | ]).
  by apply elem_of_nil in Hin.
Defined.

(** ** Two operations on one id, in both orders *)

Lemma elements_applyOperation_fresh (e : WhiteboardElement) (m : CRDTManager) :
  deleted e ≠ Some true →
  elements m !! id e = None →
  elements (applyOperation e m).1 = <[ id e := e ]> (elements m).
Proof.
  intros Hd Hnone. rewrite applyOperation_eq, Hnone. simpl.
  unfold store_effect. destruct (is_deleted e) eqn:Hdel; [ | reflexivity].
  by apply is_deleted_spec in Hdel.
Qed.

Lemma elements_applyOperation_over (e ex : WhiteboardElement)
    (els : gmap string WhiteboardElement) (m : CRDTManager) :
  deleted e ≠ Some true →
  id e = id ex →
  elements m = <[ id ex := ex ]> els →
  elements (applyOperation e m).1 =
    <[ id ex := if shouldApplyOperation e ex then e else ex ]> els.
Proof.
  intros Hd Hid Hm.
  assert (Hdel : is_deleted e = false).
  { apply not_true_is_false. by intros ?%is_deleted_spec. }
  rewrite applyOperation_eq, Hm, Hid, lookup_insert_eq. unfold decision.
  rewrite Hdel. destruct (shouldApplyOperation e ex); simpl; [ | exact Hm].
  unfold store_effect. rewrite Hdel, Hid. apply insert_insert_eq.
Qed.

(** X6. Two non-deleted elements with the same id and timestamps more than
    500ms apart, applied in either order to a manager that stores nothing
    under the id, leave the same map: the map with the newer element under
    the id. *)
Theorem same_id_outside_window_converges (a b : WhiteboardElement) (m : CRDTManager) :
  deleted a ≠ Some true → deleted b ≠ Some true →
  id a = id b →
  elements m !! id a = None →
  500 < Z.abs (timestamp a - timestamp b) →
  elements (applyOperation b (applyOperation a m).1).1 = <[ id a := newer a b ]> (elements m) ∧
  elements (applyOperation a (applyOperation b m).1).1 = <[ id a := newer a b ]> (elements m).
Proof.
  intros Ha Hb Hid Hnone Hgap.
  assert (Hgap' : 500 < Z.abs (timestamp b - timestamp a)) by lia.
  split.
  - rewrite (elements_applyOperation_over b a (elements m)); try done.
    + rewrite shouldApplyOperation_outside_window by exact Hgap'.
      unfold newer. by destruct (timestamp a <? timestamp b).
    + by apply elements_applyOperation_fresh.
  - rewrite (elements_applyOperation_over a b (elements m)); try done.
    + rewrite shouldApplyOperation_outside_window by exact Hgap.
      rewrite Hid. unfold newer.
      destruct (Z.ltb_spec (timestamp b) (timestamp a));
        destruct (Z.ltb_spec (timestamp a) (timestamp b)); try reflexivity; lia.
    + apply elements_applyOperation_fresh; [exact Hb | by rewrite <- Hid].
Qed.

Lemma same_id_outside_window_converges_witness :
  let a := sample_markdown "md-1" "alice" 1000 "first" in
  let b := sample_markdown "md-1" "bob" 1600 "second" in
  let m := new_CRDTManager "carol" in
  elements (applyOperation b (applyOperation a m).1).1 = <[ "md-1" := b ]> (elements m) ∧
  elements (applyOperation a (applyOperation b m).1).1 = <[ "md-1" := b ]> (elements m).
Proof.
  intros a b m.
  apply (same_id_outside_window_converges a b m).
  - discriminate.
  - discriminate.
  - reflexivity.
  - reflexivity.
  - reflexivity.
Defined.

Lemma shouldApplyOperation_far_strokes (inc ex : WhiteboardElement) :
  type inc = drawing → type ex = drawing →
  is_pen_or_eraser (data_tool (data inc)) = true →
  userId inc ≠ userId ex →
  Z.abs (timestamp inc - timestamp ex) ≤ 500 →
  ¬ (Z.abs (x (first_pos (path_or_points (data inc))) -
            x (first_pos (path_or_points (data ex)))) < 10 ∧
     Z.abs (y (first_pos (path_or_points (data inc))) -
            y (first_pos (path_or_points (data ex)))) < 10) →
  shouldApplyOperation inc ex = true.
Proof.
  intros Hti Hte Hp Hu Hgap Hfar.
  rewrite (shouldApplyOperation_concurrent _ _ Hgap).
  unfold resolveConcurrentConflict, resolveStrokes.
  rewrite Hti, Hte, Hp. apply String.eqb_neq in Hu. rewrite Hu.
  destruct (Z.ltb_spec (Z.abs (x (first_pos (path_or_points (data inc))) -
                               x (first_pos (path_or_points (data ex))))) 10);
    destruct (Z.ltb_spec (Z.abs (y (first_pos (path_or_points (data inc))) -
                                 y (first_pos (path_or_points (data ex))))) 10);
    simpl; try reflexivity.
  exfalso. apply Hfar. by split.
Qed.

(** X7. Two non-deleted strokes (pen or eraser) with the same id, by
    different authors, at most 500ms apart and whose first points are 10
    units or more apart on some axis: applied to a manager that stores
    nothing under the id, the one applied last is the one stored, in both
    orders.  Two replicas that receive them in opposite orders keep
    different strokes under the id. *)
Theorem far_strokes_last_applied_wins (a b : WhiteboardElement) (m : CRDTManager) :
  deleted a ≠ Some true → deleted b ≠ Some true →
  id a = id b →
  elements m !! id a = None →
  type a = drawing → type b = drawing →
  is_pen_or_eraser (data_tool (data a)) = true →
  is_pen_or_eraser (data_tool (data b)) = true →
  userId a ≠ userId b →
  Z.abs (timestamp a - timestamp b) ≤ 500 →
  ¬ (Z.abs (x (first_pos (path_or_points (data a))) -
            x (first_pos (path_or_points (data b)))) < 10 ∧
     Z.abs (y (first_pos (path_or_points (data a))) -
            y (first_pos (path_or_points (data b)))) < 10) →
  elements (applyOperation b (applyOperation a m).1).1 !! id a = Some b ∧
  elements (applyOperation a (applyOperation b m).1).1 !! id a = Some a.
Proof.
  intros Ha Hb Hid Hnone Hta Htb Hpa Hpb Hu Hgap Hfar.
  split.
  - rewrite (elements_applyOperation_over b a (elements m)); try done.
    + rewrite shouldApplyOperation_far_strokes; try done.
      * apply lookup_insert_eq.
      * lia.
      * intros [Hx Hy]. apply Hfar. split; lia.
    + by apply elements_applyOperation_fresh.
  - rewrite (elements_applyOperation_over a b (elements m)); try done.
    + rewrite shouldApplyOperation_far_strokes; try done.
      rewrite Hid. apply lookup_insert_eq.
    + apply elements_applyOperation_fresh; [exact Hb | by rewrite <- Hid].
Qed.

Lemma far_strokes_last_applied_wins_witness :
  let a := sample_stroke "draw-1" "alice" 1000 [{| x := 10; y := 10 |}] in
  let b := sample_stroke "draw-1" "bob" 1100 [{| x := 200; y := 15 |}] in
  let m := new_CRDTManager "carol" in
  elements (applyOperation b (applyOperation a m).1).1 !! "draw-1" = Some b ∧
  elements (applyOperation a (applyOperation b m).1).1 !! "draw-1" = Some a.
Proof.
  intros a b m.
  apply (far_strokes_last_applied_wins a b m).
  - discriminate.
  - discriminate.
  - reflexivity.
  - reflexivity.
  - reflexivity.
  - reflexivity.
  - reflexivity.
  - reflexivity.
  - vm_compute. discriminate.
  - vm_compute. discriminate.
  - vm_compute. intros [Hx _]. discriminate Hx.
Defined.

(** ** Keys and ids *)

Lemma keyed_by_id_applyOperation (e : WhiteboardElement) (m : CRDTManager) :
  keyed_by_id m → keyed_by_id (applyOperation e m).1.
Proof.
  intros Hinv. rewrite applyOperation_eq.
  destruct (decision e (elements m !! id e)); [ | exact Hinv].
  intros i el. simpl. unfold store_effect. destruct (is_deleted e).
  - intros Hin%lookup_delete_Some. destruct Hin as [_ Hin]. by apply Hinv.
  - intros Hin%lookup_insert_Some.
    destruct Hin as [[<- <-] | [_ Hin]]; [reflexivity | by apply Hinv].
Qed.

Lemma keyed_by_id_merge (l : list WhiteboardElement) (m : CRDTManager) :
  keyed_by_id m → keyed_by_id (merge l m).
Proof.
  revert m. induction l as [|e l IH]; intros m Hinv; [exact Hinv | ].
  rewrite merge_cons. apply IH. by apply keyed_by_id_applyOperation.
Qed.

Lemma keyed_by_id_call (c : Call) (m : CRDTManager) :
  keyed_by_id m → keyed_by_id (call c m).
Proof.
  destruct c; simpl; intros Hinv.
  - by apply keyed_by_id_applyOperation.
  - by apply keyed_by_id_merge.
  - intros i el. simpl. intros Hin%lookup_delete_Some.
    destruct Hin as [_ Hin]. by apply Hinv.
  - intros i el Hin. simpl in Hin. by rewrite lookup_empty in Hin.
Qed.

Lemma keyed_by_id_calls (cs : list Call) (m : CRDTManager) :
  keyed_by_id m → keyed_by_id (calls cs m).
Proof.
  unfold calls. revert m.
  induction cs as [|c cs IH]; intros m Hinv; simpl; [exact Hinv | ].
  apply IH. by apply keyed_by_id_call.
Qed.

Lemma keyed_by_id_new (u : string) : keyed_by_id (new_CRDTManager u).
Proof. intros i el Hin. simpl in Hin. by rewrite lookup_empty in Hin. Qed.

Lemma getAllElements_sublist (m : CRDTManager) :
  sublist (getAllElements m) (map_to_list (elements m)).*2.
Proof. unfold getAllElements. apply sublist_filter. Qed.

Lemma keyed_ids_are_keys (m : CRDTManager) :
  keyed_by_id m → id <$> (map_to_list (elements m)).*2 = (map_to_list (elements m)).*1.
Proof.
  intros Hinv.
  assert (Hall : Forall (λ p : string * WhiteboardElement, id p.2 = p.1)
                        (map_to_list (elements m))).
  { apply Forall_forall. intros [i el] Hin.
    apply elem_of_map_to_list in Hin. simpl. by apply Hinv. }
  induction Hall as [|p l Hp Hall IH]; [reflexivity | ].
  rewrite !fmap_cons. by rewrite Hp, IH.
Qed.

(** X8. After any sequence of [applyOperation], [merge], [deleteElement]
    and [clear] calls on a new manager, every stored element is stored
    under its own id, and [getAllElements] returns no two elements with the
    same id. *)
Theorem stored_under_own_id (u : string) (cs : list Call) :
  let m := calls cs (new_CRDTManager u) in
  (∀ i el, elements m !! i = Some el → id el = i) ∧
  NoDup (id <$> getAllElements m).
Proof.
  intros m.
  assert (Hinv : keyed_by_id m) by apply keyed_by_id_calls, keyed_by_id_new.
  split; [exact Hinv | ].
  apply (sublist_NoDup _ (id <$> (map_to_list (elements m)).*2)).
  - rewrite keyed_ids_are_keys by exact Hinv. apply NoDup_fst_map_to_list.
  - apply fmap_sublist, getAllElements_sublist.
Qed.

Lemma stored_under_own_id_witness :
  let e := sample_markdown "md-1" "bob" 1000 "note" in
  let m := calls [CallMerge [e; sample_markdown "md-2" "bob" 5 "x"]; CallDeleteElement "md-2"]
                 (new_CRDTManager "alice") in
  id e = "md-1" ∧ NoDup (id <$> getAllElements m).
Proof.
  intros e m.
  destruct (stored_under_own_id "alice"
              [CallMerge [e; sample_markdown "md-2" "bob" 5 "x"]; CallDeleteElement "md-2"])
    as (Hkey & Hnodup).
  split; [ | exact Hnodup].
  apply (Hkey "md-1" e). vm_compute. reflexivity.
Defined.

(** ** Listing after an accepted operation *)

Lemma elem_of_getAllElements (el : WhiteboardElement) (m : CRDTManager) :
  el ∈ getAllElements m ↔
  is_deleted el = false ∧ ∃ i, elements m !! i = Some el.
Proof.
  unfold getAllElements. rewrite list_elem_of_filter, list_elem_of_fmap.
  split.
  - intros (Hlive & [i el'] & -> & Hin). split; [exact Hlive | ].
    exists i. by apply elem_of_map_to_list.
  - intros (Hlive & i & Hin). split; [exact Hlive | ].
    exists (i, el). split; [reflexivity | by apply elem_of_map_to_list].
Qed.

(** X9. After an accepted operation on a manager that stores every element
    under its own id: a non-deleted element is among the elements returned
    by [getAllElements], and after a deletion no returned element has the
    deleted id, while the elements with other ids are returned as before. *)
Theorem getAllElements_after_accept (e : WhiteboardElement) (m : CRDTManager) :
  keyed_by_id m →
  (applyOperation e m).2 = true →
  let m1 := (applyOperation e m).1 in
  (deleted e ≠ Some true → e ∈ getAllElements m1) ∧
  (deleted e = Some true → ∀ el, el ∈ getAllElements m1 → id el ≠ id e) ∧
  (∀ el, id el ≠ id e → (el ∈ getAllElements m1 ↔ el ∈ getAllElements m)).
Proof.
  intros Hkey Hacc m1.
  assert (Hkey1 : keyed_by_id m1) by by apply keyed_by_id_applyOperation.
  repeat apply conj.
  - intros Hd. apply elem_of_getAllElements. split.
    + apply not_true_is_false. by intros ?%is_deleted_spec.
    + exists (id e). by apply applyOperation_live_stored.
  - intros Hd%is_deleted_spec el (_ & i & Hin)%elem_of_getAllElements Hid.
    pose proof (Hkey1 i el Hin) as Hi. subst m1.
    rewrite (applyOperation_accepted _ _ Hacc) in Hin. simpl in Hin.
    unfold store_effect in Hin. rewrite Hd in Hin.
    apply lookup_delete_Some in Hin as [Hne _]. congruence.
  - intros el Hid. rewrite !elem_of_getAllElements.
    split; intros (Hlive & i & Hin); (split; [exact Hlive | ]); exists i.
    + pose proof (Hkey1 i el Hin) as Hi.
      subst m1. rewrite elements_applyOperation_ne in Hin by congruence. exact Hin.
    + pose proof (Hkey i el Hin) as Hi.
      subst m1. rewrite elements_applyOperation_ne by congruence. exact Hin.
Qed.

Lemma getAllElements_after_accept_witness :
  let e := sample_markdown "md-1" "bob" 1000 "note" in
  e ∈ getAllElements (applyOperation e (new_CRDTManager "alice")).1.
Proof.
  intros e.
  destruct (getAllElements_after_accept e (new_CRDTManager "alice")
              (keyed_by_id_new "alice") eq_refl) as (Hlisted & _).
  apply Hlisted. discriminate.
Defined.

(** ** [clear] forgets the history *)

Lemma mgr_userId_call (c : Call) (m : CRDTManager) :
  mgr_userId (call c m) = mgr_userId m.
Proof.
  destruct c; simpl; try reflexivity.
  - apply mgr_userId_applyOperation.
  - revert m. induction remoteElements as [|e l IH]; intros m; [reflexivity | ].
    rewrite merge_cons, IH. apply mgr_userId_applyOperation.
Qed.

Lemma mgr_userId_calls (cs : list Call) (m : CRDTManager) :
  mgr_userId (calls cs m) = mgr_userId m.
Proof.
  unfold calls. revert m. induction cs as [|c cs IH]; intros m; [reflexivity | ].
  simpl. by rewrite IH, mgr_userId_call.
Qed.

(** X10. Whatever calls came before it, a [clear] brings the manager of
    user [u] back to a new manager of [u]: the calls made after it give the
    same manager as if they were the first ones. *)
Theorem clear_forgets_history (u : string) (before after : list Call) :
  calls (before ++ CallClear :: after)%list (new_CRDTManager u) =
  calls after (new_CRDTManager u).
Proof.
  unfold calls. rewrite fold_left_app. simpl. f_equal.
  fold (calls before (new_CRDTManager u)).
  unfold clear. by rewrite mgr_userId_calls.
Qed.

(** ** Completeness of a markdown element *)









(** * Properties of the message handler *)

(** ** A full snapshot *)

Lemma sync_fold (state : list (string * WhiteboardElement)) (m : CRDTManager)
    (v : gmap string WhiteboardElement) :
  fold_left
    (λ (acc : CRDTManager * gmap string WhiteboardElement) (entry : string * WhiteboardElement),
       ((applyOperation entry.2 acc.1).1, <[ entry.1 := entry.2 ]> acc.2))
    state (m, v) =
  (merge state.*2 m,
   fold_left (λ acc (entry : string * WhiteboardElement), <[ entry.1 := entry.2 ]> acc) state v).
Proof.
  revert m v. induction state as [|entry state IH]; intros m v; [reflexivity | ].
  simpl. rewrite IH. reflexivity.
Qed.

Lemma lookup_insert_entries (state : list (string * WhiteboardElement))
    (v : gmap string WhiteboardElement) (k : string) (e : WhiteboardElement) :
  NoDup state.*1 →
  (fold_left (λ acc (entry : string * WhiteboardElement), <[ entry.1 := entry.2 ]> acc) state v)
    !! k = Some e ↔
  (k, e) ∈ state ∨ ((k ∉ state.*1) ∧ v !! k = Some e).
Proof.
  revert v. induction state as [|[k0 e0] state IH]; intros v Hnd.
  - simpl. split.
    + intros Hv. right. split; [apply not_elem_of_nil | exact Hv].
    + intros [Hin | [_ Hv]]; [by apply elem_of_nil in Hin | exact Hv].
  - rewrite fmap_cons in Hnd. apply NoDup_cons in Hnd as [Hk0 Hnd].
    rewrite fmap_cons. cbn [fold_left fst snd]. rewrite (IH _ Hnd).
    rewrite elem_of_cons, not_elem_of_cons.
    destruct (decide (k = k0)) as [-> | Hne].
    + rewrite lookup_insert_eq. split.
      * intros [Hin | [_ Heq]].
        -- exfalso. apply Hk0. apply list_elem_of_fmap. by exists (k0, e).
        -- left. left. congruence.
      * intros [[Heq | Hin] | [[Hne _] _]]; [ | | done].
        -- right. split; [exact Hk0 | congruence].
        -- by left.
    + rewrite lookup_insert_ne by congruence. split.
      * intros [Hin | [Hk Hv]]; [left; by right | right; by repeat split].
      * intros [[Heq | Hin] | [[_ Hk] Hv]]; [congruence | by left | right; by split].
Qed.

(** X12. A ['sync'] message discards what the component held: the new
    manager is a new manager of the user into which the values of the state
    were merged in order, so it stores no element marked deleted, and (the
    keys of the state being distinct) the view holds exactly the entries of
    the state, deleted or not. *)
Theorem sync_replaces_state (user : string) (state : list (string * WhiteboardElement))
    (w : Whiteboard) :
  let w' := onMessage user (MsgSync state) w in
  crdtManager w' = merge state.*2 (new_CRDTManager user) ∧
  (∀ i el, elements (crdtManager w') !! i = Some el → deleted el ≠ Some true) ∧
  (NoDup state.*1 → ∀ k e, view w' !! k = Some e ↔ (k, e) ∈ state).
Proof.
  simpl. rewrite sync_fold. simpl. repeat apply conj.
  - reflexivity.
  - apply no_deleted_stored_merge, no_deleted_stored_new.
  - intros Hnd k e. rewrite (lookup_insert_entries _ _ _ _ Hnd), lookup_empty.
    split; [intros [Hin | [_ Hv]]; [exact Hin | discriminate Hv] | by left].
Qed.

Lemma sync_replaces_state_witness :
  let gone := sample_delete "md-1" "bob" 5 in
  let w' := onMessage "alice" (MsgSync [("md-1", gone)])
              {| crdtManager := new_CRDTManager "alice"; view := ∅ |} in
  view w' !! "md-1" = Some gone ∧ elements (crdtManager w') !! "md-1" = None.
Proof.
  intros gone w'.
  destruct (sync_replaces_state "alice" [("md-1", gone)]
              {| crdtManager := new_CRDTManager "alice"; view := ∅ |}) as (_ & _ & Hview).
  split; [ | reflexivity].
  apply Hview.
  - repeat constructor. apply not_elem_of_nil.
  - apply list_elem_of_here.
Defined.

Lemma merge_fresh (l : list WhiteboardElement) (m : CRDTManager) :
  NoDup (id <$> l) →
  Forall (λ e, deleted e ≠ Some true) l →
  (∀ e, e ∈ l → elements m !! id e = None) →
  elements (merge l m) = fold_left (λ acc e, <[ id e := e ]> acc) l (elements m) ∧
  ∀ u, counter u (merge l m) = counter u m + Z.of_nat (length (authored_by u l)).
Proof.
  revert m. induction l as [|e l IH]; intros m Hnd Hlive Hfresh.
  - split; [reflexivity | ]. intros u. unfold merge. simpl. lia.
  - rewrite fmap_cons in Hnd. apply NoDup_cons in Hnd as [He Hnd].
    apply Forall_cons in Hlive as [Hd Hlive].
    assert (Hnone : elements m !! id e = None) by (apply Hfresh, list_elem_of_here).
    assert (Hacc : (applyOperation e m).2 = true) by by rewrite applyOperation_result, Hnone.
    destruct (IH (applyOperation e m).1 Hnd Hlive) as [Hel Hcnt].
    { intros e' Hin. rewrite elements_applyOperation_ne.
      - apply Hfresh. by apply list_elem_of_further.
      - intros Heq. apply He. rewrite <- Heq. apply list_elem_of_fmap. by exists e'. }
    rewrite merge_cons. split.
    + rewrite Hel. simpl. by rewrite elements_applyOperation_fresh.
    + intros u. rewrite Hcnt, counter_applyOperation, Hacc.
      unfold authored_by. rewrite filter_cons. simpl.
      destruct (decide (userId e = u)) as [Hu | Hu].
      * rewrite (bool_decide_eq_true_2 _ Hu). simpl. lia.
      * rewrite (bool_decide_eq_false_2 _ Hu). lia.
Qed.

Lemma insert_entries_by_id (state : list (string * WhiteboardElement))
    (v : gmap string WhiteboardElement) :
  Forall (λ entry : string * WhiteboardElement, entry.1 = id entry.2) state →
  fold_left (λ acc (entry : string * WhiteboardElement), <[ entry.1 := entry.2 ]> acc) state v =
  fold_left (λ acc e, <[ id e := e ]> acc) state.*2 v.
Proof.
  intros Hall. revert v.
  induction Hall as [|entry state Hk Hall IH]; intros v; [reflexivity | ].
  rewrite fmap_cons. simpl. by rewrite Hk, IH.
Qed.

(** X13. When the entries of a ['sync'] state have distinct keys, each key
    is the id of its element and no element is marked deleted, every entry
    is accepted: the map of the new manager is the view, and the counter of
    each user is the number of elements of the state that the user
    authored. *)
Theorem sync_of_live_state (user : string) (state : list (string * WhiteboardElement))
    (w : Whiteboard) :
  NoDup state.*1 →
  Forall (λ entry : string * WhiteboardElement,
            entry.1 = id entry.2 ∧ deleted entry.2 ≠ Some true) state →
  let w' := onMessage user (MsgSync state) w in
  elements (crdtManager w') = view w' ∧
  ∀ u, counter u (crdtManager w') = Z.of_nat (length (authored_by u state.*2)).
Proof.
  intros Hnd Hall. simpl. rewrite sync_fold. simpl.
  assert (Hkeys : Forall (λ entry : string * WhiteboardElement, entry.1 = id entry.2) state).
  { eapply Forall_impl; [exact Hall | ]. by intros entry [Hk _]. }
  assert (Hids : id <$> state.*2 = state.*1).
  { clear -Hkeys. induction Hkeys as [|entry state Hk _ IH]; [reflexivity | ].
    rewrite !fmap_cons. by rewrite IH, Hk. }
  destruct (merge_fresh state.*2 (new_CRDTManager user)) as [Hel Hcnt].
  - by rewrite Hids.
  - apply Forall_fmap. eapply Forall_impl; [exact Hall | ]. by intros entry [_ Hd].
  - intros e _. apply lookup_empty.
  - split.
    + rewrite Hel. by rewrite insert_entries_by_id.
    + intros u. rewrite Hcnt. unfold counter. simpl.
      destruct (decide (user = u)) as [-> | Hne].
      * by rewrite lookup_singleton_eq.
      * by rewrite lookup_singleton_ne.
Qed.

Lemma sync_of_live_state_witness :
  let state := [("md-1", sample_markdown "md-1" "bob" 1000 "a");
                ("md-2", sample_markdown "md-2" "bob" 1000 "b")] in
  let w' := onMessage "alice" (MsgSync state)
              {| crdtManager := new_CRDTManager "alice"; view := ∅ |} in
  elements (crdtManager w') = view w' ∧ counter "bob" (crdtManager w') = 2.
Proof.
  intros state w'.
  destruct (sync_of_live_state "alice" state
              {| crdtManager := new_CRDTManager "alice"; view := ∅ |}) as [Hel Hcnt].
  - repeat constructor.
    + intros Hin. apply elem_of_cons in Hin as [Hin | Hin]; [discriminate Hin | ].
      by apply elem_of_nil in Hin.
    + apply not_elem_of_nil.
  - repeat constructor; discriminate.
  - split; [exact Hel | apply (Hcnt "bob")].
Defined.

(** ** The view follows the manager *)

(** X14. Every message other than ['sync'] keeps the view equal to the map
    of the manager: when they are equal before the message is handled they
    are equal after it, whether the message is applied, suppressed as an
    echo of the user, or ignored. *)
Theorem view_follows_manager (user : string) (message : WebSocketMessage) (w : Whiteboard) :
  (∀ state, message ≠ MsgSync state) →
  view w = elements (crdtManager w) →
  view (onMessage user message w) = elements (crdtManager (onMessage user message w)).
Proof.
  intros Hnosync Hview. destruct message as [state | s op | s ops | [i|] | ]; simpl.
  - by destruct (Hnosync state).
  - by destruct (bool_decide _).
  - by destruct (bool_decide _).
  - by rewrite Hview.
  - exact Hview.
  - exact Hview.
Qed.

Lemma view_follows_manager_witness :
  let w := {| crdtManager := new_CRDTManager "alice"; view := ∅ |} in
  let message := MsgOperation (Some "bob") (sample_markdown "md-1" "bob" 1000 "a") in
  view (onMessage "alice" message w) = elements (crdtManager (onMessage "alice" message w)).
Proof.
  intros w message.
  apply (view_follows_manager "alice" message w).
  - intros state. discriminate.
  - reflexivity.
Defined.

(** * Further properties of the reconnection *)

Lemma timeout_delays_app (es1 es2 : list Effect) :
  timeout_delays (es1 ++ es2)%list = (timeout_delays es1 ++ timeout_delays es2)%list.
Proof. unfold timeout_delays. apply omap_app. Qed.

Lemma handle_bounded (ev : Event) (s : WebSocketService) :
  0 ≤ reconnectAttempts s ≤ maxReconnectAttempts →
  0 ≤ reconnectAttempts (handle ev s).1 ≤ maxReconnectAttempts ∧
  Forall (λ d, ∃ n, 1 ≤ n ≤ maxReconnectAttempts ∧ d = n * reconnectDelay)
         (timeout_delays (handle ev s).2).
Proof.
  intros Hs. unfold maxReconnectAttempts in *.
  destruct ev; simpl; try (split; [lia | constructor]).
  - unfold onclose, attemptReconnect. unfold maxReconnectAttempts.
    destruct (Z.ltb_spec (reconnectAttempts s) 5); simpl;
      [ | split; [lia | constructor]].
    destruct (String.eqb room (roomId s)); simpl; [ | split; [lia | constructor]].
    split; [lia | ]. repeat constructor.
    exists (reconnectAttempts s + 1). split; [lia | ]. unfold reconnectDelay. lia.
  - unfold reconnectTimer. destruct (String.eqb room (roomId s)); simpl;
      split; try lia; constructor.
Qed.

Lemma run_counter_bounded (evs : list Event) (s : WebSocketService) :
  0 ≤ reconnectAttempts s ≤ 5 →
  0 ≤ reconnectAttempts (run evs s).1 ≤ 5.
Proof.
  revert s. induction evs as [|ev evs IH]; intros s Hs; simpl; [exact Hs | ].
  apply IH. by destruct (handle_bounded ev s Hs).
Qed.

(** X15. Whatever happens to a service whose counter is between 0 and 5,
    the counter stays between 0 and 5, and every reconnect that gets
    scheduled is scheduled after a whole number of seconds between 1 and
    5. *)
Theorem reconnect_counter_bounded (evs : list Event) (s : WebSocketService) :
  0 ≤ reconnectAttempts s ≤ 5 →
  0 ≤ reconnectAttempts (run evs s).1 ≤ 5 ∧
  Forall (λ d, ∃ n, 1 ≤ n ≤ 5 ∧ d = n * 1000) (timeout_delays (run evs s).2).
Proof.
  revert s. induction evs as [|ev evs IH]; intros s Hs; simpl.
  - split; [exact Hs | constructor].
  - destruct (handle_bounded ev s Hs) as [Hs' Hd].
    destruct (IH _ Hs') as [Hs'' Hd'].
    split; [exact Hs'' | ].
    rewrite timeout_delays_app. apply Forall_app. by split.
Qed.

Lemma reconnect_counter_bounded_witness :
  let r := run [EvClose "http://host" "room-a"; EvOpen; EvClose "http://host" "room-a"]
               (new_WebSocketService "user-1" "room-a") in
  0 ≤ reconnectAttempts r.1 ≤ 5.
Proof.
  intros r.
  apply (reconnect_counter_bounded
           [EvClose "http://host" "room-a"; EvOpen; EvClose "http://host" "room-a"]
           (new_WebSocketService "user-1" "room-a")).
  simpl. lia.
Defined.



Lemma handle_counts_timeouts (ev : Event) (s : WebSocketService) :
  resets_counter ev = false →
  Z.of_nat (length (timeout_delays (handle ev s).2)) =
  reconnectAttempts (handle ev s).1 - reconnectAttempts s.
Proof.
  destruct ev; simpl; try discriminate; intros _; try lia.
  - unfold onclose, attemptReconnect. destruct (_ && _); simpl; lia.
  - unfold reconnectTimer. destruct (String.eqb _ _); simpl; lia.
Qed.

(** X17. As long as no socket opens and no room switch happens, the number
    of reconnects scheduled is the increase of the counter: starting with
    the counter at [a] (between 0 and 5), at most [5 - a] reconnects are
    scheduled, whatever the number of closes. *)
Theorem reconnects_without_reset (evs : list Event) (s : WebSocketService) :
  Forall (λ ev, resets_counter ev = false) evs →
  0 ≤ reconnectAttempts s ≤ 5 →
  Z.of_nat (length (timeout_delays (run evs s).2)) =
    reconnectAttempts (run evs s).1 - reconnectAttempts s ∧
  Z.of_nat (length (timeout_delays (run evs s).2)) ≤ 5 - reconnectAttempts s.
Proof.
  intros Hall Hs.
  assert (Hcount : Z.of_nat (length (timeout_delays (run evs s).2)) =
                   reconnectAttempts (run evs s).1 - reconnectAttempts s).
  { clear Hs. revert s. induction Hall as [|ev evs Hev Hall IH]; intros s; simpl; [lia | ].
    rewrite timeout_delays_app, length_app, Nat2Z.inj_add.
    rewrite (handle_counts_timeouts ev s Hev), IH. lia. }
  split; [exact Hcount | ].
  pose proof (run_counter_bounded evs s Hs) as Hb. lia.
Qed.

Lemma reconnects_without_reset_witness :
  let evs := replicate 9 (EvClose "http://host" "room-a") in
  let s := new_WebSocketService "user-1" "room-a" in
  Z.of_nat (length (timeout_delays (run evs s).2)) ≤ 5 - reconnectAttempts s.
Proof.
  intros evs s.
  destruct (reconnects_without_reset evs s) as [_ Hle].
  - repeat constructor.
  - simpl. lia.
  - exact Hle.
Defined.

(** * Properties of the drawing session *)

Lemma shouldSendImmediately_never (e : WhiteboardElement) :
  shouldSendImmediately e = false.
Proof. unfold shouldSendImmediately. by destruct (type e). Qed.

Lemma filter_not_immediate (ops : list WhiteboardElement) :
  filter (λ op, shouldSendImmediately op = false) ops = ops.
Proof.
  induction ops as [|e ops IH]; [reflexivity | ].
  rewrite filter_cons_True by apply shouldSendImmediately_never. by rewrite IH.
Qed.

Lemma filter_singleton_ne (h : nat) : filter (λ h', h' ≠ h) [h] = [].
Proof. rewrite filter_cons_False by (intros Hne; by apply Hne). reflexivity. Qed.

Lemma sendOperation_state (e : WhiteboardElement) (b : Browser) :
  (timeouts b = [] ∨ ∃ h, timeouts b = [h] ∧ drawingEndTimeout (transport b) = Some h) →
  let r := sendOperation e b in
  r.2 = [] ∧
  timeouts r.1 = [nextHandle b] ∧
  drawingEndTimeout (transport r.1) = Some (nextHandle b) ∧
  isDrawing (transport r.1) = true ∧
  pendingOperations (transport r.1) = (pendingOperations (transport b) ++ [e])%list ∧
  socketOpen (transport r.1) = socketOpen (transport b) ∧
  core (transport r.1) = core (transport b).
Proof.
  intros Htimers r. subst r. unfold sendOperation.
  rewrite shouldSendImmediately_never.
  unfold scheduleDrawingEnd, markDrawingStart.
  destruct Htimers as [Hnone | (h & Hone & Hh)].
  - destruct (isDrawing (transport b)) eqn:Hd,
             (drawingEndTimeout (transport b)) eqn:Ht;
      simpl; rewrite ?Hd, ?Ht; simpl; rewrite ?Hnone; simpl; by repeat split.
  - destruct (isDrawing (transport b)) eqn:Hd;
      simpl; rewrite ?Hd, Hh; simpl; rewrite Hone, filter_singleton_ne; by repeat split.
Qed.

(** X18. [sendOperation] never sends the element at once: the test for the
    immediate path compares the field [type] of the element, which is
    ['drawing'] or ['markdown'], with ['pen'].  The element is appended to
    the pending operations and a drawing session is active afterwards. *)
Theorem sendOperation_only_buffers (e : WhiteboardElement) (b : Browser) :
  shouldSendImmediately e = false ∧
  (sendOperation e b).2 = [] ∧
  isDrawing (transport (sendOperation e b).1) = true ∧
  pendingOperations (transport (sendOperation e b).1) =
    (pendingOperations (transport b) ++ [e])%list.
Proof.
  split; [apply shouldSendImmediately_never | ].
  unfold sendOperation. rewrite shouldSendImmediately_never.
  unfold scheduleDrawingEnd, markDrawingStart.
  destruct (isDrawing (transport b)) eqn:Hd, (drawingEndTimeout (transport b)) eqn:Ht;
    simpl; rewrite ?Hd, ?Ht; simpl; by repeat split.
Qed.

Lemma clearDrawingState_state (b : Browser) :
  (timeouts b = [] ∨ ∃ h, timeouts b = [h] ∧ drawingEndTimeout (transport b) = Some h) →
  timeouts (clearDrawingState b) = [] ∧
  isDrawing (transport (clearDrawingState b)) = false ∧
  pendingOperations (transport (clearDrawingState b)) = [] ∧
  socketOpen (transport (clearDrawingState b)) = socketOpen (transport b) ∧
  core (transport (clearDrawingState b)) = core (transport b).
Proof.
  intros Htimers. unfold clearDrawingState. simpl.
  destruct Htimers as [Hnone | (h & Hone & Hh)].
  - destruct (drawingEndTimeout (transport b)); simpl; rewrite Hnone; by repeat split.
  - rewrite Hh. simpl. rewrite Hone, filter_singleton_ne. by repeat split.
Qed.

Lemma handleDrawingEnd_state (sentAt doneAt : Z) (t : Transport) :
  (isDrawing t = false → pendingOperations t = []) →
  isDrawing (handleDrawingEnd sentAt doneAt t).1 = false ∧
  pendingOperations (handleDrawingEnd sentAt doneAt t).1 = [] ∧
  drawingEndTimeout (handleDrawingEnd sentAt doneAt t).1 = drawingEndTimeout t.
Proof.
  intros Hidle. unfold handleDrawingEnd.
  destruct (isDrawing t) eqn:Hd; simpl; [by repeat split | ].
  repeat split; [exact Hd | by apply Hidle].
Qed.

Lemma session_ok_step (ev : SessionEvent) (b : Browser) :
  session_ok b → session_ok (session_step ev b).1.
Proof.
  intros (Htimers & Hactive & Hidle). unfold session_ok.
  destruct ev; cbn [session_step fst].
  - destruct (sendOperation_state element b Htimers) as (_ & Ht & Hh & Hd & _).
    rewrite Ht, Hh, Hd. repeat split.
    + right. by exists (nextHandle b).
    + discriminate.
    + discriminate.
  - unfold drawingEndTimer. case_bool_decide as Hin; [ | by repeat split].
    destruct (handleDrawingEnd_state sentAt doneAt (transport b) Hidle) as (Hd & Hp & Ht).
    destruct Htimers as [Hnone | (h' & Hone & Hh)].
    { rewrite Hnone in Hin. by apply elem_of_nil in Hin. }
    rewrite Hone in Hin. apply list_elem_of_singleton in Hin. subst h'.
    simpl. rewrite Hone, filter_singleton_ne.
    repeat split; [by left | congruence | done].
  - unfold forceDrawingEnd.
    destruct (handleDrawingEnd_state sentAt doneAt (transport b) Hidle) as (Hd & Hp & Ht).
    destruct (isDrawing (transport b)) eqn:Hdraw;
      [ | cbn [fst]; rewrite Hdraw; repeat split; auto; discriminate].
    cbn [transport timeouts fst]. rewrite Hd, Hp, Ht.
    repeat split; [exact Htimers | discriminate].
  - destruct (clearDrawingState_state b Htimers) as (Ht & Hd & Hp & _).
    unfold disconnect. simpl. repeat split; [by left | congruence | done].
  - unfold socketOpened. simpl. by repeat split.
  - destruct (clearDrawingState_state b Htimers) as (Ht & Hd & Hp & _).
    unfold socketClosed. simpl. repeat split; [by left | congruence | done].
Qed.

Lemma session_ok_run (evs : list SessionEvent) (b : Browser) :
  session_ok b → session_ok (session_run evs b).1.
Proof.
  revert b. induction evs as [|ev evs IH]; intros b Hok; simpl; [exact Hok | ].
  apply IH. by apply session_ok_step.
Qed.

Lemma session_ok_new (client room : string) : session_ok (new_Browser client room).
Proof. repeat split; [by left | discriminate]. Qed.

(** X19. Whatever is sent, whichever timeouts fire, whenever the drawing is
    forced to end, the service disconnects or its socket opens or closes,
    starting from a new service: at most one drawing-end timeout is pending
    and it is the one the service remembers; while a drawing session is
    active one is pending, so the session ends; and operations are pending
    only during a drawing session. *)
Theorem drawing_session_invariant (client room : string) (evs : list SessionEvent) :
  let b := (session_run evs (new_Browser client room)).1 in
  (length (timeouts b) ≤ 1)%nat ∧
  (∀ h, h ∈ timeouts b → drawingEndTimeout (transport b) = Some h) ∧
  (isDrawing (transport b) = true →
     ∃ h, timeouts b = [h] ∧ drawingEndTimeout (transport b) = Some h) ∧
  (isDrawing (transport b) = false → pendingOperations (transport b) = []).
Proof.
  intros b.
  destruct (session_ok_run evs (new_Browser client room) (session_ok_new client room))
    as (Htimers & Hactive & Hidle).
  fold b in Htimers, Hactive, Hidle.
  repeat apply conj.
  - destruct Htimers as [-> | (h & -> & _)]; simpl; lia.
  - intros h Hin. destruct Htimers as [Hnone | (h' & Hone & Hh)].
    + rewrite Hnone in Hin. by apply elem_of_nil in Hin.
    + rewrite Hone in Hin. apply list_elem_of_singleton in Hin. by subst h'.
  - intros Hd. destruct Htimers as [Hnone | Hone]; [ | exact Hone].
    by destruct (Hactive Hd).
  - exact Hidle.
Qed.

Lemma drawing_session_invariant_witness :
  let e := sample_stroke "draw-1" "alice" 1000 [{| x := 1; y := 1 |}] in
  let b := (session_run [SeSendOperation e; SeSendOperation e; SeForceDrawingEnd 5 6]
              (new_Browser "alice" "room-a")).1 in
  pendingOperations (transport b) = [].
Proof.
  intros e b.
  destruct (drawing_session_invariant "alice" "room-a"
              [SeSendOperation e; SeSendOperation e; SeForceDrawingEnd 5 6])
    as (_ & _ & _ & Hidle).
  apply Hidle. reflexivity.
Defined.

(** ** One flush for a burst of operations *)

Lemma sendOperations_cons (e : WhiteboardElement) (ops : list WhiteboardElement) (b : Browser) :
  sendOperations (e :: ops) b =
  ((sendOperations ops (sendOperation e b).1).1,
   ((sendOperation e b).2 ++ (sendOperations ops (sendOperation e b).1).2)%list).
Proof. reflexivity. Qed.

Lemma sendOperations_state (ops : list WhiteboardElement) (e : WhiteboardElement) (b : Browser) :
  (timeouts b = [] ∨ ∃ h, timeouts b = [h] ∧ drawingEndTimeout (transport b) = Some h) →
  let r := sendOperations (e :: ops) b in
  r.2 = [] ∧
  (∃ h, timeouts r.1 = [h] ∧ drawingEndTimeout (transport r.1) = Some h) ∧
  isDrawing (transport r.1) = true ∧
  pendingOperations (transport r.1) = (pendingOperations (transport b) ++ e :: ops)%list ∧
  socketOpen (transport r.1) = socketOpen (transport b) ∧
  core (transport r.1) = core (transport b).
Proof.
  revert e b. induction ops as [|e' ops IH]; intros e b Htimers r; subst r;
    destruct (sendOperation_state e b Htimers) as (Hsent & Ht & Hh & Hd & Hp & Hs & Hc);
    rewrite sendOperations_cons.
  - unfold sendOperations. cbn [fmap list_fmap session_run fst snd].
    rewrite Hsent. repeat split; try assumption. by exists (nextHandle b).
  - destruct (IH e' (sendOperation e b).1) as (Hsent' & Ht' & Hd' & Hp' & Hs' & Hc').
    { right. by exists (nextHandle b). }
    cbn [fst snd]. rewrite Hsent, Hsent'. repeat split; try assumption.
    + rewrite Hp', Hp. by rewrite <- app_assoc.
    + by rewrite Hs'.
    + by rewrite Hc'.
Qed.

(** X20. A burst of [sendOperation] calls that starts outside a drawing
    session sends nothing and leaves exactly one drawing-end timeout
    pending.  When that timeout fires, one ['batch_operations'] message with
    all the operations of the burst, in order, is sent if the socket is
    open; if it is not, nothing is sent.  In both cases the pending
    operations are dropped, the session is over and no timeout is left. *)
Theorem burst_is_flushed_once (ops : list WhiteboardElement) (b : Browser) :
  session_ok b →
  isDrawing (transport b) = false →
  ops ≠ [] →
  let r := sendOperations ops b in
  r.2 = [] ∧
  ∃ h, timeouts r.1 = [h] ∧
    ∀ sentAt doneAt,
      let r' := drawingEndTimer h sentAt doneAt r.1 in
      r'.2 = (if socketOpen (transport b)
              then [FrameBatchOperations ops (clientId (core (transport b))) sentAt]
              else []) ∧
      isDrawing (transport r'.1) = false ∧
      pendingOperations (transport r'.1) = [] ∧
      timeouts r'.1 = [].
Proof.
  intros (Htimers & _ & Hidle) Hd Hne r. subst r.
  destruct ops as [|e ops]; [done | ].
  destruct (sendOperations_state ops e b Htimers)
    as (Hsent & (h & Ht & Hh) & Hdraw & Hp & Hs & Hc).
  rewrite (Hidle Hd) in Hp. simpl app in Hp.
  split; [exact Hsent | ]. exists h. split; [exact Ht | ].
  intros sentAt doneAt r'. subst r'. unfold drawingEndTimer.
  rewrite Ht, bool_decide_eq_true_2 by apply list_elem_of_here.
  unfold handleDrawingEnd. rewrite Hdraw, Hp, filter_not_immediate.
  cbn [length Nat.ltb Nat.leb fst snd transport timeouts isDrawing pendingOperations].
  rewrite filter_singleton_ne. unfold sendMessage. rewrite Hs, Hc.
  by repeat split.
Qed.

Lemma burst_is_flushed_once_witness :
  let e1 := sample_stroke "draw-1" "alice" 1000 [{| x := 1; y := 1 |}] in
  let e2 := sample_markdown "md-1" "alice" 1100 "note" in
  let b := (socketOpened (new_Browser "alice" "room-a")) in
  (sendOperations [e1; e2] b).2 = [] ∧
  ∃ h, timeouts (sendOperations [e1; e2] b).1 = [h] ∧
       (drawingEndTimer h 1600 1601 (sendOperations [e1; e2] b).1).2 =
         [FrameBatchOperations [e1; e2] "alice" 1600].
Proof.
  intros e1 e2 b.
  destruct (burst_is_flushed_once [e1; e2] b) as (Hsent & h & Ht & Hfire).
  - repeat split; [by left | discriminate].
  - reflexivity.
  - discriminate.
  - split; [exact Hsent | ]. exists h. split; [exact Ht | ].
    destruct (Hfire 1600 1601) as (Hframes & _). exact Hframes.
Defined.

(** ** Operations pending at a disconnect *)

Lemma idle_end_is_noop (ev : SessionEvent) (b : Browser) :
  timeouts b = [] →
  isDrawing (transport b) = false →
  ends_drawing ev = true →
  session_step ev b = (b, []).
Proof.
  intros Ht Hd Hev. destruct ev; try discriminate Hev; simpl.
  - unfold drawingEndTimer. rewrite Ht.
    rewrite bool_decide_eq_false_2 by apply not_elem_of_nil. reflexivity.
  - unfold forceDrawingEnd. by rewrite Hd.
Qed.

Lemma idle_ends_are_noops (evs : list SessionEvent) (b : Browser) :
  timeouts b = [] →
  isDrawing (transport b) = false →
  Forall (λ ev, ends_drawing ev = true) evs →
  session_run evs b = (b, []).
Proof.
  intros Ht Hd Hall. induction Hall as [|ev evs Hev Hall IH]; [reflexivity | ].
  simpl. rewrite (idle_end_is_noop ev b Ht Hd Hev). simpl. by rewrite IH.
Qed.

(** X21. The operations pending when the service disconnects, or when a
    socket closes, are never sent: the pending list is emptied and the
    drawing-end timeout cleared, and afterwards no drawing-end timeout and
    no forced end sends anything or changes the service. *)
Theorem pending_operations_lost_on_disconnect (b : Browser) (current : bool)
    (url room : string) (evs : list SessionEvent) :
  session_ok b →
  Forall (λ ev, ends_drawing ev = true) evs →
  pendingOperations (transport (disconnect b)) = [] ∧
  pendingOperations (transport (socketClosed current url room b)) = [] ∧
  session_run evs (disconnect b) = (disconnect b, []) ∧
  session_run evs (socketClosed current url room b) = (socketClosed current url room b, []).
Proof.
  intros (Htimers & _ & _) Hall.
  destruct (clearDrawingState_state b Htimers) as (Ht & Hd & Hp & _).
  repeat apply conj.
  - exact Hp.
  - exact Hp.
  - by apply idle_ends_are_noops.
  - by apply idle_ends_are_noops.
Qed.

Lemma pending_operations_lost_on_disconnect_witness :
  let e := sample_stroke "draw-1" "alice" 1000 [{| x := 1; y := 1 |}] in
  let b := (sendOperation e (socketOpened (new_Browser "alice" "room-a"))).1 in
  session_run [SeDrawingEndTimer 1 1600 1601; SeForceDrawingEnd 1700 1701] (disconnect b)
  = (disconnect b, []).
Proof.
  intros e b.
  destruct (pending_operations_lost_on_disconnect b true "http://host" "room-a"
              [SeDrawingEndTimer 1 1600 1601; SeForceDrawingEnd 1700 1701])
    as (_ & _ & Hrun & _).
  - repeat split; [right; by exists 1%nat | discriminate | discriminate].
  - repeat constructor.
  - exact Hrun.
Defined.

(** * Within the window, when no kind-specific rule applies *)

Lemma resolveConcurrentConflict_fallthrough (inc ex : WhiteboardElement) :
  ¬ (type inc = drawing ∧ type ex = drawing ∧
     is_pen_or_eraser (data_tool (data inc)) = true) →
  (type inc = drawing → is_pen_or_eraser (data_tool (data inc)) = false →
     isElementComplete inc = isElementComplete ex) →
  resolveConcurrentConflict inc ex = str_gt (userId inc) (userId ex).
Proof.
  intros Hstroke Hshape. unfold resolveConcurrentConflict.
  assert (Hs : resolveStrokes inc ex = None).
  { unfold resolveStrokes.
    destruct (type inc) eqn:Hti, (type ex) eqn:Hte; try reflexivity.
    destruct (is_pen_or_eraser (data_tool (data inc))) eqn:Hp; [ | reflexivity].
    exfalso. apply Hstroke. by repeat split. }
  assert (Hc : resolveShapes inc ex = None).
  { unfold resolveShapes.
    destruct (type inc) eqn:Hti; [ | reflexivity].
    destruct (is_pen_or_eraser (data_tool (data inc))) eqn:Hp; [reflexivity | ].
    simpl. rewrite <- (Hshape eq_refl eq_refl).
    by destruct (isElementComplete inc). }
  by rewrite Hs, Hc.
Qed.

(** X22. Within the window (timestamps at most 500ms apart), when the
    incoming element is a markdown element, or a drawing that is not a
    stroke and is as complete as the stored element, or a stroke arriving on
    a markdown element, the authors alone decide: the incoming element is
    accepted exactly when its [userId] is greater than the stored one,
    whatever the timestamps.  In particular an update by the same author is
    rejected, even when it is newer. *)
Theorem concurrent_tie_decided_by_author (inc ex : WhiteboardElement) (m : CRDTManager) :
  deleted inc ≠ Some true →
  elements m !! id inc = Some ex →
  Z.abs (timestamp inc - timestamp ex) ≤ 500 →
  ¬ (type inc = drawing ∧ type ex = drawing ∧
     is_pen_or_eraser (data_tool (data inc)) = true) →
  (type inc = drawing → is_pen_or_eraser (data_tool (data inc)) = false →
     isElementComplete inc = isElementComplete ex) →
  (applyOperation inc m).2 = str_gt (userId inc) (userId ex) ∧
  (userId inc = userId ex → applyOperation inc m = (m, false)).
Proof.
  intros Hd Hex Hgap Hstroke Hshape.
  assert (Hr : (applyOperation inc m).2 = str_gt (userId inc) (userId ex)).
  { rewrite (applyOperation_live_result inc ex m Hd Hex).
    rewrite (shouldApplyOperation_concurrent _ _ Hgap).
    by apply resolveConcurrentConflict_fallthrough. }
  split; [exact Hr | ].
  intros Hu. rewrite Hu, str_gt_irrefl in Hr.
  rewrite (surjective_pairing (applyOperation inc m)), Hr.
  by rewrite (applyOperation_rejected _ _ Hr).
Qed.

Lemma concurrent_tie_decided_by_author_witness :
  let ex := sample_markdown "md-1" "alice" 1000 "draft" in
  let inc := sample_markdown "md-1" "alice" 1300 "draft, continued" in
  applyOperation inc (holding "alice" ex) = (holding "alice" ex, false).
Proof.
  intros ex inc.
  destruct (concurrent_tie_decided_by_author inc ex (holding "alice" ex)) as [_ Hsame].
  - discriminate.
  - reflexivity.
  - vm_compute. discriminate.
  - intros (Hty & _). discriminate Hty.
  - intros Hty. discriminate Hty.
  - apply Hsame. reflexivity.
Defined.
